(** * A shallow embedding of the table gateway of py-pgmg-poc

    The development follows [common.py] (identifier quoting, the unnesting
    renderer, the [TableGateway] operations, [TableReference]),
    [schemata.py] (the [Schemata] record and its gateway) and the
    transaction scopes of [query_test.py] ([TestSQLHandle], [Tx]).

    Python strings are modelled as [string]; for UTF-8 text the only byte
    the quoting code looks at, the double quote, never occurs inside a
    multi-byte character.  Python integers are [Z], positions in a tuple
    are [nat]. *)

From Stdlib Require Import ZArith String Ascii List Lia DecimalString Permutation.
From stdpp Require Import gmap strings list fin_maps.

(** ** Strings *)

(** The double-quote character. *)
Definition dq : ascii := "034"%char.

(** [sep.join(tokens)] *)
Definition join (sep : string) (tokens : list string) : string :=
  String.concat sep tokens.

(** [s.replace(old, new)] for a pattern [old] of one character. *)
Fixpoint replace_char (old : ascii) (new : string) (s : string) : string :=
  match s with
  | EmptyString => EmptyString
  | String c s' =>
      if Ascii.eqb c old then new +:+ replace_char old new s'
      else String c (replace_char old new s')
  end.

(** [str(n)] for an index and for an integer. *)
Definition str_of_nat (n : nat) : string :=
  NilEmpty.string_of_uint (Nat.to_uint n).

Definition str_of_Z (z : Z) : string :=
  NilEmpty.string_of_int (Z.to_int z).

(** [needle in haystack] on strings. *)
Fixpoint contains (needle haystack : string) : bool :=
  String.prefix needle haystack ||
  match haystack with
  | EmptyString => false
  | String _ rest => contains needle rest
  end.

(** ** Values, exceptions and outcomes *)

(** The scalars that travel in key tuples, records and result rows;
    [VNone] is Python's [None] (SQL NULL). *)
Inductive value : Type :=
  | VNone
  | VInt (z : Z)
  | VStr (s : string).

#[global] Instance value_eq_dec : EqDecision value.
Proof. solve_decision. Defined.

Definition value_code (v : value) : unit + (Z + string) :=
  match v with
  | VNone => inl tt
  | VInt z => inr (inl z)
  | VStr s => inr (inr s)
  end.

Definition value_decode (c : unit + (Z + string)) : value :=
  match c with
  | inl _ => VNone
  | inr (inl z) => VInt z
  | inr (inr s) => VStr s
  end.

#[global] Instance value_countable : Countable value.
Proof.
  apply (inj_countable' value_code value_decode).
  intros []; reflexivity.
Defined.

(** A tuple of scalars: a key, a result row, the values of a record. *)
Abbreviation tuple := (list value).

Inductive exn : Type :=
  | Exception (msg : string)
  | IndexError
  | AttributeError (attr : string)
  | TypeError
  | RuntimeError.

Inductive outcome (A : Type) : Type :=
  | Returned (a : A)
  | Raised (e : exn).

Arguments Returned {A} a.
Arguments Raised {A} e.

Definition bind {A B} (m : outcome A) (k : A -> outcome B) : outcome B :=
  match m with
  | Returned a => k a
  | Raised e => Raised e
  end.

Notation "x <~ m ;; k" := (bind m (fun x => k))
  (at level 100, m at next level, right associativity).

(** [for x in xs: s = body(s, x)], stopping at the first exception. *)
Fixpoint for_each {S X} (body : S -> X -> outcome S) (s : S) (xs : list X)
  : outcome S :=
  match xs with
  | [] => Returned s
  | x :: xs' => s' <~ body s x ;; for_each body s' xs'
  end.

(** [[f(x) for x in xs]] where [f] may raise. *)
Fixpoint map_raising {X Y} (f : X -> outcome Y) (xs : list X)
  : outcome (list Y) :=
  match xs with
  | [] => Returned []
  | x :: xs' => y <~ f x ;; ys <~ map_raising f xs' ;; Returned (y :: ys)
  end.

(** [row[i]] *)
Definition index (row : tuple) (i : nat) : outcome value :=
  match row !! i with
  | Some v => Returned v
  | None => Raised IndexError
  end.

(** [enumerate(xs)] *)
Definition enumerate {X} (xs : list X) : list (nat * X) :=
  imap (fun i x => (i, x)) xs.

(** [zip] applied to the unpacked [tuples]: no tuple gives nothing;
    otherwise the j-th result gathers the j-th component of every tuple,
    and the iteration stops as soon as one tuple is exhausted. *)
Fixpoint zip_star (tuples : list tuple) : list tuple :=
  match tuples with
  | [] => []
  | [t] => map (fun v => [v]) t
  | t :: rest => zip_with cons t (zip_star rest)
  end.

(** ** The SQL handle

    [SQLHandle] is a protocol with [query] and [exec].  The handle is
    modelled as a capturing double: it answers a query with whatever rows
    [respond] holds for it and records every statement it is given. *)

Record Call := { call_sql : string; call_args : list tuple }.

Record SQLHandle := {
  respond : string -> list tuple -> list tuple;
  issued : list Call;
}.

Definition record_call (h : SQLHandle) (sql : string) (args : list tuple)
  : SQLHandle :=
  {| respond := respond h;
     issued := issued h ++ [{| call_sql := sql; call_args := args |}] |}.

Definition query (h : SQLHandle) (sql : string) (args : list tuple)
  : list tuple * SQLHandle :=
  (respond h sql args, record_call h sql args).

Definition exec (h : SQLHandle) (sql : string) (args : list tuple)
  : SQLHandle :=
  record_call h sql args.

(** ** Metadata *)

(** [ColumnMetadata] defines neither [__eq__] nor [__hash__]: as a
    dictionary key or a set member an object is told apart by identity,
    which [obj_id] stands for. *)
Record ColumnMetadata := {
  obj_id : nat;
  column_name : string;
  field_name : string;
  sql_data_type : string;
  is_array : bool;
}.

Record TableMetadata := {
  table_schema : string;
  table_name : string;
  columns : list ColumnMetadata;
  primary_key : option (gset string);
}.

(** ** Identifier quoting and fragment rendering *)

(** [name.replace(dq, dq dq)], the name with its quotes doubled. *)
Abbreviation escaped name :=
  (replace_char dq (String dq (String dq EmptyString)) name).

Definition _q (name : string) : string :=
  String dq (escaped name +:+ String dq EmptyString).

Definition _render_list (tokens : list string) : string :=
  join ", " tokens.

Definition _column_alias (table_alias col : string) : string :=
  _q table_alias +:+ "." +:+ _q col.

Definition _render_selection_set (cols : list ColumnMetadata) : string :=
  _render_list (map (fun col => _q (column_name col)) cols).

Definition _render_aliased_selection_set (table_alias : string)
    (cols : list ColumnMetadata) : string :=
  _render_list (map (fun col => _column_alias table_alias (column_name col)) cols).

Definition _render_unnested_selection (cols : list ColumnMetadata) : string :=
  "SELECT DISTINCT ON (__k.*) __k.* AS __n FROM UNNEST("
  +:+ join ", "
        (map (fun '(i, col) =>
                "$" +:+ str_of_nat (i + 1) +:+ "::" +:+ sql_data_type col +:+ "[]")
             (enumerate cols))
  +:+ ") AS __k(" +:+ _render_selection_set cols +:+ ")".

Definition _render_tk_match (t k : string) (cols : list ColumnMetadata)
  : string :=
  join " AND "
    (map (fun c => _q t +:+ "." +:+ _q (column_name c) +:+ " = "
                   +:+ _q k +:+ "." +:+ _q (column_name c))
         cols).

(** ** Dictionaries and sets of column objects *)

Definition same_object (c d : ColumnMetadata) : bool :=
  Nat.eqb (obj_id c) (obj_id d).

(** [d[c] = i] on an insertion-ordered dictionary: a key that is already
    there keeps its place and takes the new value. *)
Fixpoint dict_set (d : list (ColumnMetadata * nat)) (c : ColumnMetadata)
    (i : nat) : list (ColumnMetadata * nat) :=
  match d with
  | [] => [(c, i)]
  | (c', j) :: d' =>
      if same_object c' c then (c', i) :: d' else (c', j) :: dict_set d' c i
  end.

(** [{c: i for i, c in enumerate(columns) if keep(c)}] *)
Definition dict_of_columns (keep : ColumnMetadata -> bool)
    (columns : list ColumnMetadata) : list (ColumnMetadata * nat) :=
  foldl (fun d '(i, c) => if keep c then dict_set d c i else d)
        [] (enumerate columns).

(** Iterating a dictionary yields its keys; [d.values()] its values. *)
Definition dict_keys (d : list (ColumnMetadata * nat)) : list ColumnMetadata :=
  map fst d.

Definition dict_values (d : list (ColumnMetadata * nat)) : list nat :=
  map snd d.

(** [s.add(c)]; the members are kept in the order they came in. *)
Definition set_add (s : list ColumnMetadata) (c : ColumnMetadata)
  : list ColumnMetadata :=
  if existsb (fun c' => same_object c' c) s then s else s ++ [c].

(** [{c for c in columns if keep(c)}] *)
Definition set_of_columns (keep : ColumnMetadata -> bool)
    (columns : list ColumnMetadata) : list ColumnMetadata :=
  foldl (fun s c => if keep c then set_add s c else s) [] columns.

(** The order in which a [set] of objects is iterated depends on their
    addresses; all that is known is that every member comes once. *)
Class PySetOrder := {
  set_iter : list ColumnMetadata -> list ColumnMetadata;
  set_iter_perm : forall s, Permutation (set_iter s) s;
}.

(** ** Records *)

(** What the gateway needs of a [typing.NamedTuple]: iteration over the
    values in order, and attribute access by name. *)
Class NamedTuple (TRecord : Type) := {
  nt_iter : TRecord -> tuple;
  nt_getattr : TRecord -> string -> option value;
}.

(** [getattr(rec, name)] *)
Definition getattr `{NamedTuple TRecord} (rec : TRecord) (name : string)
  : outcome value :=
  match nt_getattr rec name with
  | Some v => Returned v
  | None => Raised (AttributeError name)
  end.

(** ** The table gateway *)

Record TableGateway (TRecord : Type) := {
  constructor : tuple -> outcome TRecord;
  meta : TableMetadata;
  newline : string;
}.

Arguments constructor {TRecord} _ _.
Arguments meta {TRecord} _.
Arguments newline {TRecord} _.

(** [tuple(row[i] for i in matches.values())] *)
Definition key_of_row (matches : list (ColumnMetadata * nat)) (row : tuple)
  : outcome tuple :=
  map_raising (index row) (dict_values matches).

Definition no_primary_key (table : TableMetadata) : exn :=
  Exception ("Table " +:+ table_schema table +:+ "." +:+ table_name table
             +:+ " has no primary key").

Section Gateway.
Context {TRecord : Type} `{NamedTuple TRecord} `{PySetOrder}.

Definition get_by (self : TableGateway TRecord) (sql_handle : SQLHandle)
    (by_ : list string) (keys : list tuple)
  : outcome (list (option TRecord)) * SQLHandle :=
  let _n := newline self in
  let table := meta self in
  let columns := columns (meta self) in
  let matches :=
    dict_of_columns (fun c => bool_decide (field_name c ∈ by_)) columns in
  let kcss := _render_selection_set (dict_keys matches) in
  let tacss := _render_aliased_selection_set "__t" columns in
  let kacss := _render_aliased_selection_set "__k" (dict_keys matches) in
  let sql := join _n [
    "WITH __k AS (" +:+ _render_unnested_selection (dict_keys matches) +:+ ")";
    "SELECT DISTINCT ON (" +:+ kacss +:+ ") " +:+ tacss;
    "FROM __k JOIN " +:+ _q (table_schema table) +:+ "."
      +:+ _q (table_name table) +:+ " AS __t USING (" +:+ kcss +:+ ")"
  ] in
  let arguments := zip_star keys in
  let '(rows, sql_handle) := query sql_handle sql arguments in
  (key_objs <~ for_each
       (fun (key_objs : gmap tuple TRecord) row =>
          key <~ key_of_row matches row ;;
          obj <~ constructor self row ;;
          Returned (<[key := obj]> key_objs))
       ∅ rows ;;
   Returned (map (fun key => key_objs !! key) keys),
   sql_handle).

Definition find_by (self : TableGateway TRecord) (sql_handle : SQLHandle)
    (by_ : list string) (keys : list tuple)
  : outcome (list (list TRecord)) * SQLHandle :=
  let _n := newline self in
  let table := meta self in
  let columns := columns (meta self) in
  let matches :=
    dict_of_columns (fun c => bool_decide (field_name c ∈ by_)) columns in
  let kcss := _render_selection_set (dict_keys matches) in
  let tacss := _render_aliased_selection_set "__t" columns in
  let sql := join _n [
    "WITH __k AS (" +:+ _render_unnested_selection (dict_keys matches) +:+ ")";
    "SELECT " +:+ tacss;
    "FROM __k LEFT JOIN " +:+ _q (table_schema table) +:+ "."
      +:+ _q (table_name table) +:+ " AS __t USING (" +:+ kcss +:+ ")"
  ] in
  let arguments := zip_star keys in
  let '(rows, sql_handle) := query sql_handle sql arguments in
  (key_objs <~ for_each
       (fun (key_objs : gmap tuple (list TRecord)) row =>
          key <~ key_of_row matches row ;;
          obj <~ constructor self row ;;
          Returned
            match key_objs !! key with
            | None => <[key := [obj]]> key_objs
            | Some objs => <[key := objs ++ [obj]]> key_objs
            end)
       ∅ rows ;;
   Returned (map (fun key => default [] (key_objs !! key)) keys),
   sql_handle).

Definition insert (self : TableGateway TRecord) (sql_handle : SQLHandle)
    (records : list TRecord) : outcome unit * SQLHandle :=
  let _n := newline self in
  let table := meta self in
  let columns := columns (meta self) in
  let sql := join _n [
    "WITH __v AS (" +:+ _render_unnested_selection columns +:+ ")";
    "INSERT INTO " +:+ _q (table_schema table) +:+ "." +:+ _q (table_name table);
    "SELECT * FROM __v"
  ] in
  let arguments := zip_star (map nt_iter records) in
  (Returned tt, exec sql_handle sql arguments).

Definition save (self : TableGateway TRecord) (sql_handle : SQLHandle)
    (records : list TRecord) : outcome unit * SQLHandle :=
  let _n := newline self in
  let table := meta self in
  let columns := columns (meta self) in
  match primary_key (meta self) with
  | None => (Raised (no_primary_key table), sql_handle)
  | Some pk =>
      if decide (pk = ∅) then (Raised (no_primary_key table), sql_handle)
      else
        let matches :=
          set_iter (set_of_columns
                      (fun c => bool_decide (field_name c ∈ pk)) columns) in
        let setters :=
          set_iter (set_of_columns
                      (fun c => bool_decide (field_name c ∉ pk)) columns) in
        let kcss := _render_selection_set matches in
        let tcss := _render_selection_set columns in
        let vacss := _render_aliased_selection_set "__v" columns in
        let sql := join _n [
          "WITH __v AS (" +:+ _render_unnested_selection columns +:+ ")";
          "INSERT INTO " +:+ _q (table_schema table) +:+ "."
            +:+ _q (table_name table) +:+ " AS __t";
          "SELECT * FROM __v";
          "ON CONFILICT (" +:+ kcss +:+ ") DO UPDATE (" +:+ tcss +:+ ") = ("
            +:+ vacss +:+ ")"
            +:+ "WHERE " +:+ _render_tk_match "__t" "__v" setters
        ] in
        let arguments := zip_star (map nt_iter records) in
        (Returned tt, exec sql_handle sql arguments)
  end.

Definition delete (self : TableGateway TRecord) (sql_handle : SQLHandle)
    (records : list TRecord) : outcome unit * SQLHandle :=
  let _n := newline self in
  let table := meta self in
  let columns := columns (meta self) in
  match primary_key (meta self) with
  | None => (Raised (no_primary_key table), sql_handle)
  | Some pk =>
      if decide (pk = ∅) then (Raised (no_primary_key table), sql_handle)
      else
        let matches :=
          dict_of_columns (fun c => bool_decide (field_name c ∈ pk)) columns in
        let sql := join _n [
          "WITH __k AS (" +:+ _render_unnested_selection (dict_keys matches)
            +:+ ")";
          "DELETE FROM " +:+ _q (table_schema table) +:+ "."
            +:+ _q (table_name table) +:+ " AS __t";
          "USING __k WHERE " +:+ _render_tk_match "__t" "__k" (dict_keys matches)
        ] in
        match
          map_raising
            (fun col =>
               map_raising (fun rec => getattr rec (column_name col)) records)
            (dict_keys matches)
        with
        | Raised e => (Raised e, sql_handle)
        | Returned arguments => (Returned tt, exec sql_handle sql arguments)
        end
  end.
End Gateway.

(** ** [schemata.py] *)

Module Schemata.

Record t := {
  catalog_name : value;
  schema_name : value;
  schema_owner : value;
  default_character_set_catalog : value;
  default_character_set_schema : value;
  default_character_set_name : value;
  sql_path : value;
}.

(** [lambda values: Schemata( *values )]: seven positional arguments, a
    [TypeError] for any other number. *)
Definition of_values (values : tuple) : outcome t :=
  match values with
  | [a; b; c; d; e; f; g] =>
      Returned {| catalog_name := a; schema_name := b; schema_owner := c;
                  default_character_set_catalog := d;
                  default_character_set_schema := e;
                  default_character_set_name := f; sql_path := g |}
  | _ => Raised TypeError
  end.

Definition fields : list (string * (t -> value)) :=
  [ ("catalog_name", catalog_name);
    ("schema_name", schema_name);
    ("schema_owner", schema_owner);
    ("default_character_set_catalog", default_character_set_catalog);
    ("default_character_set_schema", default_character_set_schema);
    ("default_character_set_name", default_character_set_name);
    ("sql_path", sql_path) ]%string.

#[global] Instance named_tuple : NamedTuple t := {|
  nt_iter := fun rec => map (fun '(_, get) => get rec) fields;
  nt_getattr := fun rec name =>
    (fun '(_, get) => get rec)
      <$> List.find (fun '(n, _) => String.eqb n name) fields;
|}.

Definition column (id : nat) (column_name field_name sql_data_type : string)
  : ColumnMetadata :=
  {| obj_id := id; column_name := column_name; field_name := field_name;
     sql_data_type := sql_data_type; is_array := false |}.

Definition Table : TableGateway t := {|
  constructor := of_values;
  meta := {|
    table_schema := "information_schema";
    table_name := "schemata";
    columns := [
      column 0 "catalog_name" "catalog_name" "name";
      column 1 "schema_name" "schema_name" "name";
      column 2 "schema_owner" "schema_owner" "name";
      column 3 "default_character_set_catalog"
               "default_character_set_catalog" "name";
      column 4 "default_character_set_schema"
               "default_character_set_schema" "name";
      column 5 "default_character_set_name"
               "default_character_set_name" "name";
      column 6 "sql_path" "sql_path" "character varying"
    ];
    primary_key := None;
  |};
  newline := String "010"%char EmptyString;
|}.

End Schemata.

(** A record type made by [collections.namedtuple]: the field names with
    their values, built from a row of the same length. *)
Module Plain.

Definition t := list (string * value).

Definition make (names : list string) (values : tuple) : outcome t :=
  if Nat.eqb (length names) (length values)
  then Returned (zip names values)
  else Raised TypeError.

#[global] Instance named_tuple : NamedTuple t := {|
  nt_iter := fun rec => map snd rec;
  nt_getattr := fun rec name =>
    snd <$> List.find (fun '(n, _) => String.eqb n name) rec;
|}.

End Plain.

(** Sets iterated in the order their members were added. *)
Definition insertion_order : PySetOrder := {|
  set_iter := fun s => s;
  set_iter_perm := fun s => Permutation_refl s;
|}.

(** ** Transaction scopes ([query_test.py]) *)

(** The session.  [__init__] stores in [self.conn] the coroutine that
    [asyncpg.connect] returns, and [aquire_connection] awaits it each
    time it is called; a coroutine can be awaited once, a second [await]
    raises [RuntimeError].  [conn_awaited] tells whether the coroutine
    was awaited, [conn] holds the statements handed to [conn.execute] on
    the connection it gave, in order (what the server makes of their
    text is the driver's business), and [tx_level] is the nesting
    counter. *)
Record TestSQLHandle := {
  conn : list string;
  conn_awaited : bool;
  tx_level : Z;
}.

(** [TestSQLHandle()]: the coroutine not awaited yet, nothing executed,
    and the counter at 0. *)
Definition TestSQLHandle_init : TestSQLHandle :=
  {| conn := []; conn_awaited := false; tx_level := 0 |}.

(** A scope; it holds the connection and its own level. *)
Record Tx := { level : Z }.

(** What [__aexit__] is given as [exc_value]: nothing, an instance of
    [Exception], or another [BaseException] (a cancellation, a keyboard
    interrupt). *)
Inductive exc_value : Type :=
  | NoException
  | AnException (e : exn)
  | OtherBaseException.

Definition isinstance_Exception (v : exc_value) : bool :=
  match v with
  | AnException _ => true
  | _ => false
  end.

(** [await conn.execute(sql)] on the connection a scope holds. *)
Definition conn_execute (sql : string) (s : TestSQLHandle) : TestSQLHandle :=
  {| conn := conn s ++ [sql]; conn_awaited := conn_awaited s;
     tx_level := tx_level s |}.

(** [conn = await self.conn] *)
Definition aquire_connection (self : TestSQLHandle)
  : outcome unit * TestSQLHandle :=
  if conn_awaited self then (Raised RuntimeError, self)
  else (Returned tt,
        {| conn := conn self; conn_awaited := true;
           tx_level := tx_level self |}).

Definition transaction (self : TestSQLHandle) : outcome Tx * TestSQLHandle :=
  match aquire_connection self with
  | (Raised e, self) => (Raised e, self)
  | (Returned _, self) =>
      let tx := {| level := tx_level self |} in
      (Returned tx,
       {| conn := conn self; conn_awaited := conn_awaited self;
          tx_level := tx_level self + 1 |})
  end.

Definition __aenter__ (self : Tx) (s : TestSQLHandle) : TestSQLHandle :=
  if (level self =? 0)%Z then conn_execute "BEGIN TRANSACTION;" s
  else conn_execute ("SAVEPOINT " +:+ String dq (str_of_Z (level self))
                     +:+ String dq ";") s.

Definition __aexit__ (self : Tx) (exc : exc_value) (s : TestSQLHandle)
  : TestSQLHandle :=
  if isinstance_Exception exc then
    if (level self =? 0)%Z then conn_execute "ROLLBACK;" s
    else conn_execute ("ROLLBACK TO SAVEPOINT "
                       +:+ String dq (str_of_Z (level self))) s
  else
    if (level self =? 0)%Z then conn_execute "COMMIT;" s
    else conn_execute ("RELEASE SAVEPOINT "
                       +:+ String dq (str_of_Z (level self))) s.

(** [async with await handle.transaction():] opens a scope by making the
    [Tx] and entering it; when [transaction] raises, nothing is
    entered. *)
Definition open_scope (s : TestSQLHandle) : outcome Tx * TestSQLHandle :=
  match transaction s with
  | (Returned tx, s') => (Returned tx, __aenter__ tx s')
  | (Raised e, s') => (Raised e, s')
  end.

(** A session's history: attempts to open a scope, and scopes left with
    some [exc_value]. *)
Inductive scope_event : Type :=
  | Open
  | Exit (tx : Tx) (exc : exc_value).

Definition step (s : TestSQLHandle) (ev : scope_event) : TestSQLHandle :=
  match ev with
  | Open => snd (open_scope s)
  | Exit tx exc => __aexit__ tx exc s
  end.

Definition run (s : TestSQLHandle) (evs : list scope_event) : TestSQLHandle :=
  foldl step s evs.

Definition is_open (ev : scope_event) : bool :=
  match ev with
  | Open => true
  | Exit _ _ => false
  end.

(** How many scopes a history asks for, and how many it leaves. *)
Definition opened (evs : list scope_event) : nat :=
  length (List.filter is_open evs).

Definition exited (evs : list scope_event) : nat :=
  length (List.filter (fun ev => negb (is_open ev)) evs).

(** Whether an event makes a scope: an [Open] whose [transaction]
    returns one. *)
Definition makes_scope (s : TestSQLHandle) (ev : scope_event) : bool :=
  match ev with
  | Open => match (transaction s).1 with
            | Returned _ => true
            | Raised _ => false
            end
  | Exit _ _ => false
  end.

(** How many scopes a history makes. *)
Fixpoint scopes_made (s : TestSQLHandle) (evs : list scope_event) : nat :=
  match evs with
  | [] => 0
  | ev :: evs' =>
      (if makes_scope s ev then 1 else 0) + scopes_made (step s ev) evs'
  end.

(** ** [TableReference] and [ColumnReference]

    References are objects: [copy] makes a new one and an assignment to an
    attribute changes one object only.  The store maps an address to the
    object that lives there. *)

Module Ref.

Record ColumnReference := {
  table_reference : nat;
  column_name : string;
}.

(** [alias_attr] is the instance attribute named [alias]: absent on a
    reference made by the constructor, where the name [alias] still is
    the method of the class, and present once something was assigned
    to it. *)
Record TableReference := {
  table_schema : string;
  table_name : string;
  table_alias : option string;
  columns : list ColumnReference;
  alias_attr : option string;
}.

Abbreviation store := (list TableReference).

Definition __init__ (table_schema table_name : string)
    (table_alias : option string) (h : store) : nat * store :=
  (length h,
   h ++ [{| table_schema := table_schema; table_name := table_name;
            table_alias := table_alias; columns := [];
            alias_attr := None |}]).

(** [copy(self)]: a new object with the same attributes. *)
Definition copy (self : nat) (h : store) : option (nat * store) :=
  match h !! self with
  | Some obj => Some (length h, h ++ [obj])
  | None => None
  end.

(** [ref.alias = v] *)
Definition set_alias_attr (ref : nat) (v : string) (h : store) : store :=
  alter (fun obj =>
           {| table_schema := table_schema obj; table_name := table_name obj;
              table_alias := table_alias obj; columns := columns obj;
              alias_attr := Some v |})
        ref h.

(** [self.alias(table_alias)].  The name [alias] is looked up on the
    object first: where the instance has an attribute of that name it is
    a string, and calling it raises [TypeError]; otherwise the method of
    the class runs.  There is no result for an address where nothing
    lives. *)
Definition alias (self : nat) (table_alias : string) (h : store)
  : option (outcome (nat * store)) :=
  match h !! self with
  | None => None
  | Some obj =>
      match alias_attr obj with
      | Some _ => Some (Raised TypeError)
      | None =>
          match copy self h with
          | Some (alias_ref, h') =>
              Some (Returned (alias_ref, set_alias_attr alias_ref table_alias h'))
          | None => None
          end
      end
  end.

(** Truth value of an optional string: [None] and the empty string are
    false. *)
Definition truthy (s : option string) : bool :=
  match s with
  | Some (String _ _) => true
  | _ => false
  end.

Definition __str__ (self : TableReference) : string :=
  let schema_qualified_name :=
    _q (table_schema self) +:+ "." +:+ _q (table_name self) in
  if truthy (table_alias self)
  then schema_qualified_name +:+ " AS " +:+ _q (default EmptyString (table_alias self))
  else schema_qualified_name.

(** [str(ref)] for the reference at an address. *)
Definition str (ref : nat) (h : store) : option string :=
  __str__ <$> h !! ref.

Definition column__str__ (self : ColumnReference) (h : store)
  : option string :=
  (fun t => t +:+ "." +:+ _q (column_name self))
    <$> str (table_reference self) h.

End Ref.

(** ** The specification's words, to compare the code with *)

(** "escaping embedded quotes by doubling them": a quote becomes two, any
    other character stays. *)
Definition spec_escape (c : ascii) : list ascii :=
  if Ascii.eqb c dq then [dq; dq] else [c].

(** Reading a quoted identifier back: two quotes inside stand for one. *)
Fixpoint unquote_body (s : string) : option string :=
  match s with
  | EmptyString => None
  | String c s' =>
      if Ascii.eqb c dq then
        match s' with
        | EmptyString => Some EmptyString
        | String c' s'' =>
            if Ascii.eqb c' dq then String dq <$> unquote_body s'' else None
        end
      else String c <$> unquote_body s'
  end.

Definition unquote (s : string) : option string :=
  match s with
  | String c s' => if Ascii.eqb c dq then unquote_body s' else None
  | EmptyString => None
  end.

(** How many double quotes a string holds. *)
Fixpoint count_dq (s : string) : nat :=
  match s with
  | EmptyString => 0
  | String c s' => (if Ascii.eqb c dq then 1 else 0) + count_dq s'
  end.

(** The fragment of section 4.2 for an alias, a name, the casts of the
    bind parameters and the column names. *)
Definition spec_unnest_shape (alias name : string) (casts cols : list string)
  : string :=
  "SELECT DISTINCT ON (" +:+ alias +:+ ".*) " +:+ alias +:+ ".* AS " +:+ name
  +:+ " FROM UNNEST(" +:+ join ", " casts +:+ ") AS " +:+ alias
  +:+ "(" +:+ join ", " cols +:+ ")".

#[global] Instance exn_eq_dec : EqDecision exn.
Proof. solve_decision. Defined.

#[global] Instance outcome_eq_dec `{EqDecision A} : EqDecision (outcome A).
Proof. solve_decision. Defined.

(** "the ordered list of all records matching that key": the records of
    the rows whose key columns hold [key], in the order of the rows. *)
Definition records_matching {TRecord} (self : TableGateway TRecord)
    (matches : list (ColumnMetadata * nat)) (key : tuple) (rows : list tuple)
  : list TRecord :=
  flat_map
    (fun row =>
       if decide (key_of_row matches row = Returned key) then
         match constructor self row with
         | Returned obj => [obj]
         | Raised _ => []
         end
       else [])
    rows.

(** A row the gateway can take in: it has the key columns and the record
    constructor accepts it. *)
Definition row_ok {TRecord} (self : TableGateway TRecord)
    (matches : list (ColumnMetadata * nat)) (row : tuple) : Prop :=
  (exists key, key_of_row matches row = Returned key) /\
  (exists obj, constructor self row = Returned obj).

(** The arity of the shortest tuple, 0 when there is none. *)
Fixpoint shortest (tuples : list tuple) : nat :=
  match tuples with
  | [] => 0
  | [t] => length t
  | t :: rest => Nat.min (length t) (shortest rest)
  end.

(** ** The table of the specification's example

    Columns [(id: int, name: text)], primary key [{id}]. *)

Module Items.

Definition id_column : ColumnMetadata :=
  {| obj_id := 0; column_name := "id"; field_name := "id";
     sql_data_type := "int"; is_array := false |}.

Definition name_column : ColumnMetadata :=
  {| obj_id := 1; column_name := "name"; field_name := "name";
     sql_data_type := "text"; is_array := false |}.

Definition Table : TableGateway Plain.t := {|
  constructor := Plain.make ["id"; "name"]%string;
  meta := {|
    table_schema := "public";
    table_name := "items";
    columns := [id_column; name_column];
    primary_key := Some {["id"%string]};
  |};
  newline := String "010"%char EmptyString;
|}.

Definition item (id : Z) (name : string) : Plain.t :=
  [("id", VInt id); ("name", VStr name)]%string.

End Items.

(** A handle on which nothing was issued yet and which answers every
    query with the same rows. *)
Definition canned (rows : list tuple) : SQLHandle :=
  {| respond := fun _ _ => rows; issued := [] |}.

(** The dictionary [matches] of [get_by] and [find_by]. *)
Abbreviation matches_of self by_ :=
  (dict_of_columns (fun c => bool_decide (field_name c ∈ by_))
                   (columns (meta self))).

(** ** Rows and records to try the operations on *)

(** Two rows of [information_schema.schemata], the schemas the test of
    [get_by] asks for. *)
Definition schemata_rows : list tuple :=
  [ [VStr "postgres"; VStr "information_schema"; VStr "postgres";
     VNone; VNone; VNone; VNone];
    [VStr "postgres"; VStr "public"; VStr "pg_database_owner";
     VNone; VNone; VNone; VNone] ].

Definition public_schema : Schemata.t :=
  {| Schemata.catalog_name := VStr "postgres";
     Schemata.schema_name := VStr "public";
     Schemata.schema_owner := VStr "pg_database_owner";
     Schemata.default_character_set_catalog := VNone;
     Schemata.default_character_set_schema := VNone;
     Schemata.default_character_set_name := VNone;
     Schemata.sql_path := VNone |}.

(** Rows of the example table: one row for each key, and with two rows
    for the key 2. *)
Definition item_rows : list tuple :=
  [ [VInt 2; VStr "b"]; [VInt 1; VStr "a"] ].

Definition item_rows_many : list tuple :=
  [ [VInt 2; VStr "b"]; [VInt 1; VStr "a"]; [VInt 2; VStr "c"] ].

(** A reference as the constructor makes it, and the copy [alias] makes
    of it for the alias [s]. *)
Definition schemata_reference : Ref.TableReference :=
  {| Ref.table_schema := "information_schema"; Ref.table_name := "schemata";
     Ref.table_alias := None; Ref.columns := []; Ref.alias_attr := None |}.

Definition schemata_copy : Ref.TableReference :=
  {| Ref.table_schema := "information_schema"; Ref.table_name := "schemata";
     Ref.table_alias := None; Ref.columns := [];
     Ref.alias_attr := Some "s"%string |}.

(** The statement an operation left last on a handle. *)
Definition last_call (h : SQLHandle) : Call :=
  default {| call_sql := EmptyString; call_args := [] |} (last (issued h)).

(** ** Reading a rendered identifier list back

    A reader for the text [_render_list] makes of quoted identifiers:
    a quoted identifier, then either the end or a comma, a blank and the
    rest of the list. *)

Fixpoint read_body (s : string) : option (string * string) :=
  match s with
  | EmptyString => None
  | String c s' =>
      if Ascii.eqb c dq then
        match s' with
        | EmptyString => Some (EmptyString, EmptyString)
        | String c' s'' =>
            if Ascii.eqb c' dq
            then (fun '(name, rest) => (String dq name, rest)) <$> read_body s''
            else Some (EmptyString, s')
        end
      else (fun '(name, rest) => (String c name, rest)) <$> read_body s'
  end.

Definition read_quoted (s : string) : option (string * string) :=
  match s with
  | String c s' => if Ascii.eqb c dq then read_body s' else None
  | EmptyString => None
  end.

Fixpoint read_list (fuel : nat) (s : string) : option (list string) :=
  match fuel with
  | 0 => None
  | S fuel' =>
      match read_quoted s with
      | None => None
      | Some (name, rest) =>
          match rest with
          | EmptyString => Some [name]
          | String c1 (String c2 rest') =>
              if Ascii.eqb c1 "," && Ascii.eqb c2 " "
              then cons name <$> read_list fuel' rest'
              else None
          | _ => None
          end
      end
  end.

Definition read_identifier_list (s : string) : option (list string) :=
  match s with
  | EmptyString => Some []
  | _ => read_list (String.length s) s
  end.

(** * Properties *)

(** ** Strings *)

Lemma list_ascii_of_string_app (s1 s2 : string) :
  list_ascii_of_string (s1 +:+ s2)
  = list_ascii_of_string s1 ++ list_ascii_of_string s2.
Proof.
  induction s1 as [|c s1 IH]; simpl; [reflexivity | now rewrite IH].
Qed.

Lemma string_length_app (s1 s2 : string) :
  String.length (s1 +:+ s2) = String.length s1 + String.length s2.
Proof.
  induction s1 as [|c s1 IH]; simpl; [reflexivity | now rewrite IH].
Qed.

Lemma count_dq_app (s1 s2 : string) :
  count_dq (s1 +:+ s2) = count_dq s1 + count_dq s2.
Proof.
  induction s1 as [|c s1 IH]; simpl; [reflexivity | rewrite IH; lia].
Qed.

(** ** Identifier quoting *)

Lemma escaped_chars (name : string) :
  list_ascii_of_string (escaped name)
  = flat_map spec_escape (list_ascii_of_string name).
Proof.
  induction name as [|c name IH]; [reflexivity|].
  cbn [replace_char list_ascii_of_string flat_map]. unfold spec_escape at 1.
  destruct (Ascii.eqb c dq).
  - now rewrite list_ascii_of_string_app, IH.
  - cbn [list_ascii_of_string]. now rewrite IH.
Qed.

Lemma escaped_count (name : string) :
  count_dq (escaped name) = 2 * count_dq name.
Proof.
  induction name as [|c name IH]; [reflexivity|].
  cbn [replace_char count_dq].
  destruct (Ascii.eqb c dq) eqn:E.
  - rewrite count_dq_app, IH. cbn. lia.
  - cbn [count_dq]. rewrite E, IH. lia.
Qed.

Lemma escaped_length (name : string) :
  String.length (escaped name) = String.length name + count_dq name.
Proof.
  induction name as [|c name IH]; [reflexivity|].
  cbn [replace_char count_dq String.length].
  destruct (Ascii.eqb c dq).
  - rewrite string_length_app, IH. cbn. lia.
  - cbn [String.length]. rewrite IH. lia.
Qed.

Lemma append_String (c : ascii) (s1 s2 : string) :
  String c s1 +:+ s2 = String c (s1 +:+ s2).
Proof. reflexivity. Qed.

Lemma unquote_escaped (name : string) :
  unquote_body (escaped name +:+ String dq EmptyString) = Some name.
Proof.
  induction name as [|c name IH]; [reflexivity|].
  cbn [replace_char].
  destruct (Ascii.eqb c dq) eqn:E.
  - apply Ascii.eqb_eq in E. subst c.
    rewrite !append_String. change (EmptyString +:+ escaped name) with (escaped name).
    cbn [unquote_body]. rewrite Ascii.eqb_refl, IH. reflexivity.
  - rewrite append_String. cbn [unquote_body]. now rewrite E, IH.
Qed.

(** C9. [_q] is defined on every string; its result is the name between
    two double quotes with each double quote of the name written twice
    and every other character as it was, so the result holds twice the
    name's quotes plus the two around it, is longer than the name by the
    number of its quotes plus two, and reads back as the name. *)
Theorem quote_identifier_doubles_each_quote (name : string) :
  exists quoted,
    _q name = quoted /\
    list_ascii_of_string quoted
    = dq :: flat_map spec_escape (list_ascii_of_string name) ++ [dq] /\
    count_dq quoted = 2 * count_dq name + 2 /\
    String.length quoted = String.length name + count_dq name + 2 /\
    unquote quoted = Some name.
Proof.
  exists (_q name). split; [reflexivity|]. unfold _q. repeat split.
  - cbn [list_ascii_of_string].
    now rewrite list_ascii_of_string_app, escaped_chars.
  - cbn [count_dq]. rewrite count_dq_app, escaped_count. cbn. lia.
  - cbn [String.length]. rewrite string_length_app, escaped_length. cbn. lia.
  - cbn [unquote]. rewrite Ascii.eqb_refl. apply unquote_escaped.
Qed.

(** ** The unnesting renderer *)

Lemma enumerate_lookup {X} (xs : list X) (i : nat) :
  enumerate xs !! i = (fun x => (i, x)) <$> xs !! i.
Proof. unfold enumerate. apply list_lookup_imap. Qed.

Lemma enumerate_length {X} (xs : list X) :
  length (enumerate xs) = length xs.
Proof. unfold enumerate. apply length_imap. Qed.

(** C7. For every sequence of columns the renderer gives the fragment of
    section 4.2 with alias [__k] and name [__n]; there is one cast and one
    column name per column, the i-th cast (counting from 0) is the
    placeholder [$(i+1)] cast to the i-th column's [sql_data_type]
    followed by [[]], and the i-th name is the i-th column's quoted
    [column_name]. *)
Theorem unnested_selection_shape (cols : list ColumnMetadata) :
  exists casts names,
    _render_unnested_selection cols = spec_unnest_shape "__k" "__n" casts names /\
    length casts = length cols /\
    length names = length cols /\
    forall i col,
      cols !! i = Some col ->
      casts !! i
      = Some ("$" +:+ str_of_nat (S i) +:+ "::" +:+ sql_data_type col +:+ "[]") /\
      names !! i = Some (_q (column_name col)).
Proof.
  eexists _, _. split; [reflexivity|].
  rewrite !length_map, enumerate_length. do 2 (split; [reflexivity|]).
  intros i col Hcol. split.
  - rewrite list_lookup_fmap, enumerate_lookup, Hcol. simpl.
    now replace (i + 1) with (S i) by lia.
  - now rewrite list_lookup_fmap, Hcol.
Qed.

(** ** Transaction scopes *)

Lemma aenter_level (tx : Tx) (s : TestSQLHandle) :
  tx_level (__aenter__ tx s) = tx_level s /\
  conn_awaited (__aenter__ tx s) = conn_awaited s.
Proof. unfold __aenter__. destruct (level tx =? 0)%Z; split; reflexivity. Qed.

Lemma aexit_level (tx : Tx) (exc : exc_value) (s : TestSQLHandle) :
  tx_level (__aexit__ tx exc s) = tx_level s /\
  conn_awaited (__aexit__ tx exc s) = conn_awaited s.
Proof.
  unfold __aexit__.
  destruct (isinstance_Exception exc), (level tx =? 0)%Z; split; reflexivity.
Qed.

Lemma transaction_returns (s s' : TestSQLHandle) (tx : Tx) :
  transaction s = (Returned tx, s') ->
  conn_awaited s = false /\ conn_awaited s' = true /\
  level tx = tx_level s /\ tx_level s' = (tx_level s + 1)%Z /\
  conn s' = conn s.
Proof.
  unfold transaction, aquire_connection.
  destruct (conn_awaited s); [discriminate|].
  intros [= <- <-]. repeat split.
Qed.

Lemma transaction_awaited (s : TestSQLHandle) :
  conn_awaited s = true ->
  transaction s = (Raised RuntimeError, s) /\
  open_scope s = (Raised RuntimeError, s).
Proof.
  intros Ha. unfold open_scope, transaction, aquire_connection.
  now rewrite Ha.
Qed.

Lemma step_level (s : TestSQLHandle) (ev : scope_event) :
  tx_level (step s ev)
  = (tx_level s + if makes_scope s ev then 1 else 0)%Z.
Proof.
  destruct ev as [|tx exc]; cbn [step makes_scope].
  - unfold open_scope. destruct (transaction s) as [[tx|e] s'] eqn:Ht; cbn [fst snd].
    + apply transaction_returns in Ht as (_ & _ & _ & Hl' & _).
      rewrite (proj1 (aenter_level tx s')). exact Hl'.
    + unfold transaction, aquire_connection in Ht.
      destruct (conn_awaited s); [|discriminate].
      injection Ht as _ <-. lia.
  - rewrite (proj1 (aexit_level tx exc s)). lia.
Qed.

(** C2 on the code. In a session whose counter is 0 and whose first
    scope A could be opened, A has level 0 and [BEGIN TRANSACTION;] was
    executed; opening a scope B inside it raises [RuntimeError], because
    [transaction] awaits the session's connection coroutine a second
    time: no scope is made and no [SAVEPOINT] is executed.  A [Tx] of
    level 1 built by hand on the connection executes the savepoint
    statement with the level between two quotes, but on an exception a
    [ROLLBACK TO SAVEPOINT] whose quote is not closed; A left with an
    exception executes [ROLLBACK;]. *)
Theorem nested_scope_is_not_opened (s s1 : TestSQLHandle) (A : Tx) (e : exn) :
  tx_level s = 0%Z ->
  open_scope s = (Returned A, s1) ->
  level A = 0%Z /\
  conn s1 = conn s ++ ["BEGIN TRANSACTION;"] /\
  open_scope s1 = (Raised RuntimeError, s1) /\
  conn (__aenter__ {| level := 1 |} s1)
  = conn s1 ++ ["SAVEPOINT " +:+ String dq ("1" +:+ String dq ";")] /\
  conn (__aexit__ {| level := 1 |} (AnException e) s1)
  = conn s1 ++ ["ROLLBACK TO SAVEPOINT " +:+ String dq "1"] /\
  count_dq <$> last (conn (__aenter__ {| level := 1 |} s1)) = Some 2 /\
  count_dq <$> last (conn (__aexit__ {| level := 1 |} (AnException e) s1))
  = Some 1 /\
  conn (__aexit__ A (AnException e) s1) = conn s1 ++ ["ROLLBACK;"].
Proof.
  intros H0 Hopen. unfold open_scope in Hopen.
  destruct (transaction s) as [[tx|e'] s'] eqn:Ht; [|discriminate].
  injection Hopen as <- <-.
  apply transaction_returns in Ht as (_ & Haw & Hl & _ & Hc).
  rewrite H0 in Hl.
  assert (Henter : __aenter__ tx s' = conn_execute "BEGIN TRANSACTION;" s').
  { unfold __aenter__. now rewrite Hl. }
  rewrite Henter.
  split; [exact Hl|]. split; [cbn; now rewrite Hc|].
  split; [apply transaction_awaited; exact Haw|].
  split; [reflexivity|]. split; [reflexivity|].
  split; [cbn [__aenter__ level Z.eqb conn_execute conn]; now rewrite last_snoc|].
  split; [cbn [__aexit__ isinstance_Exception level Z.eqb conn_execute conn];
          now rewrite last_snoc|].
  unfold __aexit__. cbn [isinstance_Exception]. now rewrite Hl.
Qed.

Lemma nested_scope_is_not_opened_witness :
  tx_level TestSQLHandle_init = 0%Z /\
  (exists s1,
     open_scope TestSQLHandle_init = (Returned {| level := 0 |}, s1) /\
     conn s1 = ["BEGIN TRANSACTION;"] /\
     open_scope s1 = (Raised RuntimeError, s1)).
Proof.
  split; [reflexivity|].
  eexists. split; [reflexivity|].
  destruct (nested_scope_is_not_opened TestSQLHandle_init _ _ TypeError
              eq_refl eq_refl) as (_ & Hc & Hraise & _).
  split; [exact Hc | exact Hraise].
Defined.

(** The claim C5 fails where a scope is opened and left again: no scope
    is open, and the counter is 1, not one less than before the exit. *)
Lemma counter_after_exit_counterexample :
  opened [Open; Exit {| level := 0 |} NoException]
  - exited [Open; Exit {| level := 0 |} NoException] = 0 /\
  (open_scope TestSQLHandle_init).1 = Returned {| level := 0 |} /\
  tx_level (run TestSQLHandle_init [Open; Exit {| level := 0 |} NoException])
  = 1%Z /\
  tx_level (__aexit__ {| level := 0 |} NoException
              (open_scope TestSQLHandle_init).2)
  <> (tx_level (open_scope TestSQLHandle_init).2 - 1)%Z.
Proof. repeat split. discriminate. Qed.

(** C5, amended. Leaving a scope never changes the session's counter,
    whatever the outcome; a [transaction] that returns a scope gives it
    the value the counter had and adds one.  After any history the
    counter is its first value plus the number of scopes made so far,
    open or not. *)
Theorem counter_counts_scopes_made (s : TestSQLHandle)
    (evs : list scope_event) :
  (forall tx exc s', tx_level (__aexit__ tx exc s') = tx_level s') /\
  (forall s' tx s'',
     transaction s' = (Returned tx, s'') ->
     level tx = tx_level s' /\ tx_level s'' = (tx_level s' + 1)%Z) /\
  tx_level (run s evs) = (tx_level s + Z.of_nat (scopes_made s evs))%Z.
Proof.
  split; [intros; apply aexit_level|]. split.
  - intros s' tx s'' Ht.
    now apply transaction_returns in Ht as (_ & _ & Hl & Hl' & _).
  - revert s. induction evs as [|ev evs IH]; intros s.
    + unfold run. cbn. lia.
    + unfold run in *. cbn [foldl scopes_made]. rewrite IH, step_level.
      destruct (makes_scope s ev); lia.
Qed.

Lemma counter_counts_scopes_made_witness :
  transaction TestSQLHandle_init
  = (Returned {| level := 0 |},
     {| conn := []; conn_awaited := true; tx_level := 1 |}) /\
  tx_level (run TestSQLHandle_init
              [Open; Exit {| level := 0 |} (AnException TypeError); Open])
  = 1%Z.
Proof.
  split; [reflexivity|].
  destruct (counter_counts_scopes_made TestSQLHandle_init
              [Open; Exit {| level := 0 |} (AnException TypeError); Open])
    as (_ & _ & ->).
  reflexivity.
Defined.

(** ** Table references *)

Section TableReferences.
Import Ref.

Lemma copy_spec (self : nat) (h : store) (t : TableReference) :
  h !! self = Some t ->
  copy self h = Some (length h, h ++ [t]).
Proof. intros Ht. unfold copy. now rewrite Ht. Qed.

Lemma set_alias_attr_fresh (h : store) (t : TableReference) (a : string) :
  set_alias_attr (length h) a (h ++ [t])
  = h ++ [{| table_schema := table_schema t; table_name := table_name t;
             table_alias := table_alias t; columns := columns t;
             alias_attr := Some a |}].
Proof.
  unfold set_alias_attr.
  rewrite alter_app_r_alt by lia.
  now rewrite Nat.sub_diag.
Qed.

Lemma alias_spec (h : store) (self : nat) (t : TableReference) (a : string) :
  h !! self = Some t ->
  alias self a h
  = Some match alias_attr t with
         | Some _ => Raised TypeError
         | None =>
             Returned
               (length h,
                h ++ [{| table_schema := table_schema t;
                         table_name := table_name t;
                         table_alias := table_alias t; columns := columns t;
                         alias_attr := Some a |}])
         end.
Proof.
  intros Ht. unfold alias. rewrite Ht.
  destruct (alias_attr t); [reflexivity|].
  now rewrite (copy_spec _ _ _ Ht), set_alias_attr_fresh.
Qed.

(** The claim C10 fails on a reference that [alias] returned: its
    attribute [alias] is the string it was given, and calling it raises
    [TypeError] instead of giving a reference with the same text. *)
Lemma alias_of_a_copy_counterexample :
  alias 0 "s" [schemata_reference]
  = Some (Returned (1, [schemata_reference; schemata_copy])) /\
  alias 1 "x" [schemata_reference; schemata_copy] = Some (Raised TypeError).
Proof. split; reflexivity. Qed.

(** C10, amended. For every reference [t] in the store whose name
    [alias] still is the method of the class, as on every reference the
    constructor made, and every string [a], [t.alias(a)] returns a new
    reference: [t] is as it was, the copy has the schema, name and
    [table_alias] of [t] and therefore the rendered text of [t],
    whatever [a] is; [a] went to the copy's attribute [alias], which
    [__str__] does not read. *)
Theorem alias_keeps_rendered_text (h : store) (self : nat)
    (t : TableReference) (a : string) :
  h !! self = Some t ->
  alias_attr t = None ->
  exists alias_ref h',
    alias self a h = Some (Returned (alias_ref, h')) /\
    alias_ref <> self /\
    h' !! self = Some t /\
    str alias_ref h' = str self h /\
    str self h' = str self h /\
    table_alias <$> h' !! alias_ref = Some (table_alias t) /\
    alias_attr <$> h' !! alias_ref = Some (Some a) /\
    forall b alias_ref2 h2,
      alias self b h = Some (Returned (alias_ref2, h2)) ->
      str alias_ref2 h2 = str alias_ref h'.
Proof.
  intros Ht Hattr.
  assert (Hlt : self < length h) by (eapply lookup_lt_Some; eauto).
  assert (Hal : forall b, alias self b h
            = Some (Returned
                      (length h,
                       h ++ [{| table_schema := table_schema t;
                                table_name := table_name t;
                                table_alias := table_alias t;
                                columns := columns t;
                                alias_attr := Some b |}]))).
  { intros b. rewrite (alias_spec _ _ _ b Ht). now rewrite Hattr. }
  assert (Hnew : forall b,
            str (length h)
              (h ++ [{| table_schema := table_schema t;
                        table_name := table_name t;
                        table_alias := table_alias t;
                        columns := columns t;
                        alias_attr := Some b |}])
            = Some (__str__ t)).
  { intros b. unfold str. now rewrite list_lookup_middle. }
  eexists _, _. split; [apply Hal|].
  assert (Hold : forall x : TableReference, (h ++ [x]) !! self = Some t).
  { intros x. now rewrite lookup_app_l. }
  repeat split.
  - lia.
  - apply Hold.
  - rewrite Hnew. unfold str. now rewrite Ht.
  - unfold str. now rewrite Hold, Ht.
  - now rewrite list_lookup_middle.
  - now rewrite list_lookup_middle.
  - intros b r2 h2 Hb. rewrite Hal in Hb. injection Hb as <- <-.
    now rewrite !Hnew.
Qed.

End TableReferences.

(** ** Argument arrays *)

Lemma zip_star_length (tuples : list tuple) :
  length (zip_star tuples) = shortest tuples.
Proof.
  induction tuples as [|t rest IH]; [reflexivity|].
  destruct rest as [|t' rest].
  - simpl. apply length_map.
  - change (zip_star (t :: t' :: rest))
      with (zip_with cons t (zip_star (t' :: rest))).
    rewrite length_zip_with, IH. reflexivity.
Qed.

Lemma zip_star_lookup (tuples : list tuple) (j : nat) (col : tuple) :
  zip_star tuples !! j = Some col ->
  length col = length tuples /\
  forall i t, tuples !! i = Some t -> col !! i = t !! j.
Proof.
  revert col. induction tuples as [|t rest IH]; intros col Hcol.
  - discriminate.
  - destruct rest as [|t' rest].
    + cbn [zip_star] in Hcol. rewrite list_lookup_fmap in Hcol.
      destruct (t !! j) as [v|] eqn:Hv; [|discriminate].
      injection Hcol as <-. split; [reflexivity|].
      intros [|i] u Hu; [|discriminate].
      injection Hu as <-. now rewrite Hv.
    + change (zip_star (t :: t' :: rest))
        with (zip_with cons t (zip_star (t' :: rest))) in Hcol.
      apply lookup_zip_with_Some in Hcol as (v & col' & -> & Hv & Hcol').
      destruct (IH _ Hcol') as [Hlen Hget]. split.
      * cbn [length]. now rewrite Hlen.
      * intros [|i] u Hu.
        -- injection Hu as <-. now rewrite Hv.
        -- apply (Hget i u Hu).
Qed.

(** ** What the operations dispatch *)

Section Dispatch.
Context {TRecord : Type} `{NamedTuple TRecord} `{PySetOrder}.
Implicit Types (self : TableGateway TRecord) (h : SQLHandle).

Lemma get_by_dispatch self h by_ keys :
  exists sql,
    issued (get_by self h by_ keys).2
    = issued h ++ [{| call_sql := sql; call_args := zip_star keys |}].
Proof. eexists. reflexivity. Qed.

Lemma find_by_dispatch self h by_ keys :
  exists sql,
    issued (find_by self h by_ keys).2
    = issued h ++ [{| call_sql := sql; call_args := zip_star keys |}].
Proof. eexists. reflexivity. Qed.

Lemma insert_dispatch self h records :
  exists sql,
    insert self h records
    = (Returned tt, record_call h sql (zip_star (map nt_iter records))).
Proof. eexists. reflexivity. Qed.

Lemma save_dispatch self h records pk :
  primary_key (meta self) = Some pk -> pk <> ∅ ->
  exists sql,
    save self h records
    = (Returned tt, record_call h sql (zip_star (map nt_iter records))).
Proof.
  intros Hpk Hne. unfold save. rewrite Hpk.
  destruct (decide (pk = ∅)) as [->|_]; [congruence|].
  eexists. reflexivity.
Qed.

(** C8. When the table's [primary_key] is [None] or the empty set, [save]
    and [delete] raise the exception that names the table and hand the
    handle back as it was: no statement was recorded on it. *)
Theorem save_delete_need_primary_key self h records :
  primary_key (meta self) = None \/ primary_key (meta self) = Some ∅ ->
  save self h records = (Raised (no_primary_key (meta self)), h) /\
  delete self h records = (Raised (no_primary_key (meta self)), h) /\
  issued (save self h records).2 = issued h /\
  issued (delete self h records).2 = issued h.
Proof.
  intros Hpk.
  assert (Hs : save self h records = (Raised (no_primary_key (meta self)), h)).
  { unfold save. destruct Hpk as [-> | ->]; [reflexivity|].
    destruct (decide (∅ = ∅)); [reflexivity | congruence]. }
  assert (Hd : delete self h records = (Raised (no_primary_key (meta self)), h)).
  { unfold delete. destruct Hpk as [-> | ->]; [reflexivity|].
    destruct (decide (∅ = ∅)); [reflexivity | congruence]. }
  rewrite Hs, Hd. repeat split.
Qed.

(** C3, amended. No operation checks the arities of the tuples it is
    given.  [get_by], [find_by], [insert] and, on a table with a primary
    key, [save] dispatch one statement whose argument arrays are the
    [zip] of the tuples: as many arrays as the shortest tuple has
    components, each of the length of the batch, the j-th array holding
    the j-th component of every tuple; what a longer tuple has beyond
    that is left out, and nothing is raised for it. *)
Theorem arities_are_not_validated self h by_ (keys : list tuple)
    (records : list TRecord) :
  (exists sql,
     issued (get_by self h by_ keys).2
     = issued h ++ [{| call_sql := sql; call_args := zip_star keys |}]) /\
  (exists sql,
     issued (find_by self h by_ keys).2
     = issued h ++ [{| call_sql := sql; call_args := zip_star keys |}]) /\
  (exists sql,
     insert self h records
     = (Returned tt, record_call h sql (zip_star (map nt_iter records)))) /\
  (forall pk,
     primary_key (meta self) = Some pk -> pk <> ∅ ->
     exists sql,
       save self h records
       = (Returned tt, record_call h sql (zip_star (map nt_iter records)))) /\
  (forall tuples : list tuple,
     length (zip_star tuples) = shortest tuples /\
     forall j col,
       zip_star tuples !! j = Some col ->
       length col = length tuples /\
       forall i t, tuples !! i = Some t -> col !! i = t !! j).
Proof.
  split; [apply get_by_dispatch|].
  split; [apply find_by_dispatch|].
  split; [apply insert_dispatch|].
  split; [intros pk; apply save_dispatch|].
  intros tuples. split; [apply zip_star_length|].
  intros j col. apply zip_star_lookup.
Qed.

End Dispatch.

(** ** Reassembly of the result rows *)

Section Reassembly.
Context {TRecord : Type}.
Variables (self : TableGateway TRecord) (matches : list (ColumnMetadata * nat)).

Lemma records_matching_cons (key : tuple) (row : tuple) (rows : list tuple) :
  records_matching self matches key (row :: rows)
  = (if decide (key_of_row matches row = Returned key) then
       match constructor self row with
       | Returned obj => [obj]
       | Raised _ => []
       end
     else [])
    ++ records_matching self matches key rows.
Proof. reflexivity. Qed.

Lemma records_matching_none (key : tuple) (rows : list tuple) :
  (forall row, row ∈ rows -> key_of_row matches row <> Returned key) ->
  records_matching self matches key rows = [].
Proof.
  induction rows as [|row rows IH]; intros Hno; [reflexivity|].
  rewrite records_matching_cons, IH.
  - destruct (decide (key_of_row matches row = Returned key)) as [E|_];
      [|reflexivity].
    exfalso. apply (Hno row); [left | exact E].
  - intros row' Hin. apply Hno. now right.
Qed.


Lemma records_matching_unique (key : tuple) (row : tuple) (obj : TRecord)
    (rows : list tuple) :
  row ∈ rows ->
  key_of_row matches row = Returned key ->
  constructor self row = Returned obj ->
  (forall row', row' ∈ rows -> key_of_row matches row' = Returned key ->
                row' = row) ->
  last (records_matching self matches key rows) = Some obj.
Proof.
  intros Hin Hkey Hobj. induction rows as [|r rows IH]; intros Huniq.
  - inversion Hin.
  - rewrite records_matching_cons, last_app.
    destruct (decide (row ∈ rows)) as [Hin'|Hnot].
    + rewrite IH; [reflexivity | exact Hin' |].
      intros row' Hr. apply Huniq. now right.
    + rewrite records_matching_none.
      * assert (r = row) as -> by (inversion Hin; subst; tauto).
        rewrite decide_True by exact Hkey. now rewrite Hobj.
      * intros row' Hr E. apply Hnot.
        rewrite <- (Huniq row'); [exact Hr | now right | exact E].
Qed.

(** The loop of [get_by]: the dictionary ends up holding, for each key,
    the record of the last row that has it. *)
Lemma get_by_loop (rows : list tuple) (key_objs : gmap tuple TRecord) :
  Forall (row_ok self matches) rows ->
  exists key_objs',
    for_each
      (fun (key_objs : gmap tuple TRecord) row =>
         key <~ key_of_row matches row ;;
         obj <~ constructor self row ;;
         Returned (<[key := obj]> key_objs))
      key_objs rows
    = Returned key_objs' /\
    forall key,
      key_objs' !! key
      = match last (records_matching self matches key rows) with
        | Some obj => Some obj
        | None => key_objs !! key
        end.
Proof.
  intros Hok. revert key_objs.
  induction Hok as [|row rows [[k Hk] [obj Hobj]] _ IH]; intros key_objs.
  - exists key_objs. split; [reflexivity|]. intros key. reflexivity.
  - destruct (IH (<[k := obj]> key_objs)) as (m & Hm & Hget).
    exists m. split.
    + cbn [for_each]. rewrite Hk, Hobj. exact Hm.
    + intros key. rewrite Hget, records_matching_cons, last_app, Hk, Hobj.
      destruct (last (records_matching self matches key rows)); [reflexivity|].
      destruct (decide (Returned k = Returned key)) as [[= ->]|Hne].
      * now rewrite lookup_insert_eq.
      * rewrite lookup_insert_ne by congruence. reflexivity.
Qed.

(** The loop of [find_by]: each key's list grows by the records of the
    rows that have the key, in the order of the rows. *)
Lemma find_by_loop (rows : list tuple) (key_objs : gmap tuple (list TRecord)) :
  Forall (row_ok self matches) rows ->
  exists key_objs',
    for_each
      (fun (key_objs : gmap tuple (list TRecord)) row =>
         key <~ key_of_row matches row ;;
         obj <~ constructor self row ;;
         Returned
           match key_objs !! key with
           | None => <[key := [obj]]> key_objs
           | Some objs => <[key := objs ++ [obj]]> key_objs
           end)
      key_objs rows
    = Returned key_objs' /\
    forall key,
      default [] (key_objs' !! key)
      = default [] (key_objs !! key) ++ records_matching self matches key rows.
Proof.
  intros Hok. revert key_objs.
  induction Hok as [|row rows [[k Hk] [obj Hobj]] _ IH]; intros key_objs.
  - exists key_objs. split; [reflexivity|]. intros key.
    now rewrite app_nil_r.
  - set (next := match key_objs !! k with
                 | None => <[k := [obj]]> key_objs
                 | Some objs => <[k := objs ++ [obj]]> key_objs
                 end).
    destruct (IH next) as (m & Hm & Hget).
    exists m. split.
    + cbn [for_each]. rewrite Hk, Hobj. exact Hm.
    + intros key. rewrite Hget, records_matching_cons, Hk, Hobj, app_assoc.
      f_equal. subst next.
      destruct (decide (Returned k = Returned key)) as [[= ->]|Hne].
      * destruct (key_objs !! key) as [objs|] eqn:E;
          now rewrite lookup_insert_eq.
      * rewrite app_nil_r.
        destruct (key_objs !! k);
          rewrite lookup_insert_ne by congruence; reflexivity.
Qed.

(** With one row at most for each key, the order of the rows does not
    show in what is found for a key. *)
Lemma records_matching_short (key : tuple) (rows : list tuple) :
  NoDup (map (key_of_row matches) rows) ->
  length (records_matching self matches key rows) <= 1.
Proof.
  induction rows as [|row rows IH]; intros Hnd; [simpl; lia|].
  cbn [map] in Hnd. apply NoDup_cons in Hnd as [Hnotin Hnd].
  rewrite records_matching_cons, length_app.
  destruct (decide (key_of_row matches row = Returned key)) as [E|_].
  - rewrite records_matching_none.
    + destruct (constructor self row); simpl; lia.
    + intros row' Hin E'. apply Hnotin. rewrite E, <- E'.
      apply list_elem_of_fmap. now exists row'.
  - simpl. now apply IH.
Qed.

Lemma records_matching_perm (key : tuple) (rows rows' : list tuple) :
  rows ≡ₚ rows' ->
  NoDup (map (key_of_row matches) rows) ->
  records_matching self matches key rows
  = records_matching self matches key rows'.
Proof.
  intros Hp Hnd.
  assert (Hfm : records_matching self matches key rows
                ≡ₚ records_matching self matches key rows').
  { unfold records_matching. now apply Permutation_flat_map. }
  pose proof (records_matching_short key rows Hnd) as Hlen.
  destruct (records_matching self matches key rows) as [|o [|o' l]].
  - now apply Permutation_nil_l in Hfm.
  - now apply Permutation_singleton_l in Hfm.
  - simpl in Hlen. lia.
Qed.

End Reassembly.

(** ** [get_by] and [find_by] *)

Section Lookups.
Context {TRecord : Type}.
Implicit Types (self : TableGateway TRecord) (h : SQLHandle).

(** The statement does not depend on the handle, and the result is made
    of the rows the handle answers it with. *)
Lemma get_by_unfold self by_ keys :
  exists sql, forall h,
    get_by self h by_ keys
    = (key_objs <~ for_each
           (fun (key_objs : gmap tuple TRecord) row =>
              key <~ key_of_row (matches_of self by_) row ;;
              obj <~ constructor self row ;;
              Returned (<[key := obj]> key_objs))
           ∅ (respond h sql (zip_star keys)) ;;
       Returned (map (fun key => key_objs !! key) keys),
       record_call h sql (zip_star keys)).
Proof. eexists. intros h. reflexivity. Qed.

Lemma find_by_unfold self by_ keys :
  exists with_clause select_clause, forall h,
    let sql :=
      join (newline self)
        [ with_clause; select_clause;
          "FROM __k LEFT JOIN " +:+ _q (table_schema (meta self)) +:+ "."
            +:+ _q (table_name (meta self)) +:+ " AS __t USING ("
            +:+ _render_selection_set (dict_keys (matches_of self by_))
            +:+ ")" ] in
    with_clause
    = "WITH __k AS ("
      +:+ _render_unnested_selection (dict_keys (matches_of self by_))
      +:+ ")" /\
    find_by self h by_ keys
    = (key_objs <~ for_each
           (fun (key_objs : gmap tuple (list TRecord)) row =>
              key <~ key_of_row (matches_of self by_) row ;;
              obj <~ constructor self row ;;
              Returned
                match key_objs !! key with
                | None => <[key := [obj]]> key_objs
                | Some objs => <[key := objs ++ [obj]]> key_objs
                end)
           ∅ (respond h sql (zip_star keys)) ;;
       Returned (map (fun key => default [] (key_objs !! key)) keys),
       record_call h sql (zip_star keys)).
Proof. eexists _, _. intros h. split; reflexivity. Qed.

Lemma dispatched_call h sql args (c : Call) :
  last (issued (record_call h sql args)) = Some c ->
  c = {| call_sql := sql; call_args := args |}.
Proof. cbn [record_call issued]. rewrite last_snoc. congruence. Qed.

(** C4. Let [c] be the statement [get_by] dispatches and [rows] what the
    handle answers it with, every row having the key columns and being
    accepted by the record constructor.  Then [get_by] returns, without
    raising, one slot for each key, in the order of the keys: the slot of
    a key that no row has is [None], and the slot of a key that one row
    has is the record of that row, wherever the row stands among the
    others and however often the key is given.  A handle that answers
    with the same rows in another order, no two of them with the same
    key, leads to the same result. *)
Theorem get_by_slots self h by_ (keys : list tuple) (c : Call) :
  let matches := matches_of self by_ in
  let rows := respond h (call_sql c) (call_args c) in
  last (issued (get_by self h by_ keys).2) = Some c ->
  Forall (row_ok self matches) rows ->
  exists res,
    (get_by self h by_ keys).1 = Returned res /\
    length res = length keys /\
    (forall i key,
       keys !! i = Some key ->
       ((forall row, row ∈ rows -> key_of_row matches row <> Returned key) ->
        res !! i = Some None) /\
       (forall row obj,
          row ∈ rows ->
          key_of_row matches row = Returned key ->
          constructor self row = Returned obj ->
          (forall row', row' ∈ rows ->
                        key_of_row matches row' = Returned key -> row' = row) ->
          res !! i = Some (Some obj))) /\
    (forall h',
       respond h' (call_sql c) (call_args c) ≡ₚ rows ->
       NoDup (map (key_of_row matches) rows) ->
       (get_by self h' by_ keys).1 = Returned res).
Proof.
  intros matches rows Hc Hok.
  destruct (get_by_unfold self by_ keys) as [sql Hun].
  rewrite Hun in Hc. apply dispatched_call in Hc.
  assert (Hrows : rows = respond h sql (zip_star keys)) by (subst rows c; reflexivity).
  destruct (get_by_loop self matches rows ∅ Hok) as (m & Hm & Hget).
  exists (map (fun key => m !! key) keys).
  split; [|split; [|split]].
  - rewrite Hun, <- Hrows. cbn [fst]. fold matches. now rewrite Hm.
  - apply length_map.
  - intros i key Hi. split.
    + intros Hno. rewrite list_lookup_fmap, Hi. cbn. f_equal.
      rewrite Hget, records_matching_none by exact Hno.
      cbn. apply lookup_empty.
    + intros row obj Hin Hkey Hobj Huniq.
      rewrite list_lookup_fmap, Hi. cbn. f_equal.
      rewrite Hget.
      now rewrite (records_matching_unique self matches key row obj rows).
  - intros h' Hperm Hnd.
    assert (Hrows' : respond h' sql (zip_star keys) ≡ₚ rows)
      by (subst c; exact Hperm).
    assert (Hok' : Forall (row_ok self matches) (respond h' sql (zip_star keys)))
      by (now rewrite Hrows').
    destruct (get_by_loop self matches _ ∅ Hok') as (m' & Hm' & Hget').
    rewrite Hun. cbn [fst]. fold matches. rewrite Hm'. cbn [bind]. f_equal.
    apply map_ext. intros key. rewrite Hget, Hget'.
    now rewrite (records_matching_perm self matches key rows
                   (respond h' sql (zip_star keys))).
Qed.


End Lookups.

(** ** [save] on a table with a primary key *)

Section Upsert.
Context `{PySetOrder}.

Lemma set_iter_singleton (c : ColumnMetadata) : set_iter [c] = [c].
Proof. apply Permutation_singleton_r, set_iter_perm. Qed.

Lemma items_key_columns :
  set_of_columns (fun c => bool_decide (field_name c ∈ ({["id"%string]} : gset string)))
    [Items.id_column; Items.name_column]
  = [Items.id_column].
Proof. vm_compute. reflexivity. Qed.

Lemma items_setter_columns :
  set_of_columns (fun c => bool_decide (field_name c ∉ ({["id"%string]} : gset string)))
    [Items.id_column; Items.name_column]
  = [Items.name_column].
Proof. vm_compute. reflexivity. Qed.

(** C1 on the code. For the table [(id, name)] with primary key [{id}]
    and the one record [(1, a)], in whatever order Python iterates its
    sets, [save] dispatches the statement below.  Its fourth line reads
    [ON CONFILICT], gives all columns and not the setter columns after
    [DO UPDATE], has no [SET], runs into [WHERE] without a blank, and its
    predicate asks the setter column to be equal in the stored and the
    incoming row: the text has no [ON CONFLICT], no [DO UPDATE SET] and
    no inequality. *)
Theorem save_renders_malformed_upsert (h : SQLHandle) :
  exists sql,
    save Items.Table h [Items.item 1 "a"]
    = (Returned tt, record_call h sql [[VInt 1]; [VStr "a"]]) /\
    sql
    = join (String "010"%char EmptyString)
        [ "WITH __v AS (SELECT DISTINCT ON (__k.*) __k.* AS __n FROM UNNEST($1::int[], $2::text[]) AS __k("
            +:+ _q "id" +:+ ", " +:+ _q "name" +:+ "))";
          "INSERT INTO " +:+ _q "public" +:+ "." +:+ _q "items" +:+ " AS __t";
          "SELECT * FROM __v";
          "ON CONFILICT (" +:+ _q "id" +:+ ") DO UPDATE ("
            +:+ _q "id" +:+ ", " +:+ _q "name" +:+ ") = ("
            +:+ _q "__v" +:+ "." +:+ _q "id" +:+ ", "
            +:+ _q "__v" +:+ "." +:+ _q "name" +:+ ")WHERE "
            +:+ _q "__t" +:+ "." +:+ _q "name" +:+ " = "
            +:+ _q "__v" +:+ "." +:+ _q "name" ] /\
    contains "ON CONFLICT" sql = false /\
    contains "DO UPDATE SET" sql = false /\
    contains "<>" sql = false /\
    contains "!=" sql = false /\
    contains "DISTINCT FROM" sql = false.
Proof.
  eexists. split; [|split].
  - unfold save. cbn [Items.Table meta primary_key columns].
    destruct (decide (({["id"%string]} : gset string) = ∅)) as [E|_].
    { exfalso. revert E. apply non_empty_singleton_L. }
    rewrite items_key_columns, items_setter_columns, !set_iter_singleton.
    reflexivity.
  - vm_compute. reflexivity.
  - vm_compute. repeat split.
Qed.

End Upsert.

(** ** The operations at work *)

Lemma save_delete_need_primary_key_witness :
  primary_key (meta Schemata.Table) = None /\
  save (H0 := insertion_order) Schemata.Table (canned []) [public_schema]
  = (Raised (Exception "Table information_schema.schemata has no primary key"),
     canned []) /\
  delete Schemata.Table (canned []) [public_schema]
  = (Raised (Exception "Table information_schema.schemata has no primary key"),
     canned []).
Proof.
  split; [reflexivity|].
  destruct (@save_delete_need_primary_key _ _ insertion_order Schemata.Table
              (canned []) [public_schema] (or_introl eq_refl))
    as (Hs & Hd & _).
  split; [exact Hs | exact Hd].
Defined.

(** The claim C3 fails on two keys of arities 2 and 1: nothing is raised,
    the statement is dispatched, and its only argument array holds the
    first components; the second component of the longer key is gone. *)
Lemma mismatched_arities_counterexample :
  (get_by Schemata.Table (canned [])
     ["catalog_name"; "schema_name"]%string
     [[VStr "postgres"; VStr "public"]; [VStr "postgres"]]).1
  = Returned [None; None] /\
  call_args
    <$> issued (get_by Schemata.Table (canned [])
                  ["catalog_name"; "schema_name"]%string
                  [[VStr "postgres"; VStr "public"]; [VStr "postgres"]]).2
  = [[[VStr "postgres"; VStr "postgres"]]].
Proof. split; vm_compute; reflexivity. Qed.

Lemma arities_are_not_validated_witness :
  primary_key (meta Items.Table) = Some {["id"%string]} /\
  ({["id"%string]} : gset string) <> ∅ /\
  exists sql,
    save (H0 := insertion_order) Items.Table (canned [])
      [Items.item 1 "a"; [("id"%string, VInt 2)]]
    = (Returned tt, record_call (canned []) sql [[VInt 1; VInt 2]]).
Proof.
  split; [reflexivity|]. split; [apply non_empty_singleton_L|].
  destruct (@arities_are_not_validated _ _ insertion_order Items.Table
              (canned []) [] [] [Items.item 1 "a"; [("id"%string, VInt 2)]])
    as (_ & _ & _ & Hsave & _).
  exact (Hsave {["id"%string]} eq_refl (non_empty_singleton_L _)).
Defined.

Lemma alias_keeps_rendered_text_witness :
  (Ref.__init__ "information_schema" "schemata" None []).2 !! 0
  = Some schemata_reference /\
  Ref.alias_attr schemata_reference = None /\
  exists alias_ref h',
    Ref.alias 0 "s" (Ref.__init__ "information_schema" "schemata" None []).2
    = Some (Returned (alias_ref, h')) /\
    Ref.str alias_ref h'
    = Some (_q "information_schema" +:+ "." +:+ _q "schemata").
Proof.
  split; [reflexivity|]. split; [reflexivity|].
  destruct (alias_keeps_rendered_text
              (Ref.__init__ "information_schema" "schemata" None []).2 0 _ "s"
              eq_refl eq_refl)
    as (alias_ref & h' & Halias & _ & _ & Hstr & _).
  exists alias_ref, h'. split; [exact Halias|].
  rewrite Hstr. reflexivity.
Defined.

(** The example of the specification: the keys [(2,)], [(3,)], [(1,)]
    against rows that come as [(2, b)], [(1, a)]. *)
Lemma get_by_slots_witness :
  let h := canned item_rows in
  let keys := [[VInt 2]; [VInt 3]; [VInt 1]] in
  let c := last_call (get_by Items.Table h ["id"%string] keys).2 in
  last (issued (get_by Items.Table h ["id"%string] keys).2) = Some c /\
  Forall (row_ok Items.Table (matches_of Items.Table ["id"%string]))
         (respond h (call_sql c) (call_args c)) /\
  exists res,
    (get_by Items.Table h ["id"%string] keys).1 = Returned res /\
    length res = 3 /\
    res !! 0 = Some (Some (Items.item 2 "b")) /\
    res !! 1 = Some None.
Proof.
  intros h keys c.
  assert (Hc : last (issued (get_by Items.Table h ["id"%string] keys).2) = Some c)
    by reflexivity.
  assert (Hok : Forall (row_ok Items.Table (matches_of Items.Table ["id"%string]))
                       (respond h (call_sql c) (call_args c))).
  { repeat constructor; eexists; vm_compute; reflexivity. }
  split; [exact Hc|]. split; [exact Hok|].
  destruct (get_by_slots Items.Table h ["id"%string] keys c Hc Hok)
    as (res & Hres & Hlen & Hslots & _).
  exists res. split; [exact Hres|]. split; [exact Hlen|]. split.
  - destruct (Hslots 0 [VInt 2] eq_refl) as [_ Hone].
    apply (Hone [VInt 2; VStr "b"]); [left | reflexivity | reflexivity |].
    intros row' Hin Hkey.
    apply elem_of_cons in Hin as [-> | Hin]; [reflexivity|].
    apply list_elem_of_singleton in Hin as ->. discriminate Hkey.
  - destruct (Hslots 1 [VInt 3] eq_refl) as [Hnone _].
    apply Hnone. intros row Hin Hkey.
    apply elem_of_cons in Hin as [-> | Hin]; [discriminate Hkey|].
    apply list_elem_of_singleton in Hin as ->. discriminate Hkey.
Defined.


(** ** Worked examples *)

Example quote_plain : _q "id" = String dq ("id" +:+ String dq EmptyString).
Proof. reflexivity. Qed.

Example quote_embedded :
  _q ("a" +:+ String dq "b")
  = String dq ("a" +:+ String dq (String dq ("b" +:+ String dq EmptyString))).
Proof. reflexivity. Qed.

Example unnest_two_columns :
  _render_unnested_selection [Items.id_column; Items.name_column]
  = "SELECT DISTINCT ON (__k.*) __k.* AS __n FROM UNNEST($1::int[], $2::text[]) AS __k("
    +:+ _q "id" +:+ ", " +:+ _q "name" +:+ ")".
Proof. reflexivity. Qed.

Example get_by_example :
  (get_by Items.Table (canned item_rows) ["id"%string]
     [[VInt 2]; [VInt 3]; [VInt 1]]).1
  = Returned [Some (Items.item 2 "b"); None; Some (Items.item 1 "a")].
Proof. vm_compute. reflexivity. Qed.

Example get_by_rows_reversed :
  (get_by Items.Table (canned (rev item_rows)) ["id"%string]
     [[VInt 2]; [VInt 3]; [VInt 1]; [VInt 2]]).1
  = Returned [Some (Items.item 2 "b"); None; Some (Items.item 1 "a");
              Some (Items.item 2 "b")].
Proof. vm_compute. reflexivity. Qed.

Example find_by_example :
  (find_by Items.Table (canned item_rows_many) ["id"%string]
     [[VInt 2]; [VInt 3]; [VInt 1]]).1
  = Returned [[Items.item 2 "b"; Items.item 2 "c"]; []; [Items.item 1 "a"]].
Proof. vm_compute. reflexivity. Qed.

Example delete_arguments :
  call_args
    <$> issued (delete Items.Table (canned [])
                  [Items.item 1 "a"; Items.item 2 "b"]).2
  = [[[VInt 1; VInt 2]]].
Proof. vm_compute. reflexivity. Qed.

Example second_transaction_raises :
  (open_scope (run TestSQLHandle_init
                 [Open; Exit {| level := 0 |} NoException])).1
  = Raised RuntimeError /\
  conn (run TestSQLHandle_init
          [Open; Exit {| level := 0 |} NoException; Open])
  = [ "BEGIN TRANSACTION;"; "COMMIT;" ].
Proof. split; reflexivity. Qed.

(** * More of the code *)

(** ** Quoting keeps identifiers apart *)

(** X1. Two names are quoted to the same text only if they are the same
    name: no two identifiers collide after [_q], and the same holds for
    an aliased column [_q alias . _q col] once the alias is fixed. *)
Theorem quote_identifier_injective (a b alias : string) :
  (_q a = _q b -> a = b) /\
  (_column_alias alias a = _column_alias alias b -> a = b).
Proof.
  assert (Hinj : forall x y, _q x = _q y -> x = y).
  { intros x y E.
    assert (Hu : forall n, unquote (_q n) = Some n).
    { intros n. unfold _q. cbn [unquote]. rewrite Ascii.eqb_refl.
      apply unquote_escaped. }
    pose proof (Hu x) as Hx. rewrite E, Hu in Hx. congruence. }
  split; [apply Hinj|].
  unfold _column_alias. intros E. apply Hinj.
  apply (f_equal list_ascii_of_string) in E.
  rewrite !list_ascii_of_string_app in E.
  apply app_inv_head in E. apply app_inv_head in E.
  rewrite <- (string_of_list_ascii_of_string (_q a)),
          <- (string_of_list_ascii_of_string (_q b)).
  now rewrite E.
Qed.

(** ** The dictionary of key columns *)

Lemma enumerate_snoc {X} (xs : list X) (x : X) :
  enumerate (xs ++ [x]) = enumerate xs ++ [(length xs, x)].
Proof.
  unfold enumerate. rewrite imap_app. cbn. now rewrite Nat.add_0_r.
Qed.

Lemma dict_of_columns_snoc keep (cols : list ColumnMetadata) (c : ColumnMetadata) :
  dict_of_columns keep (cols ++ [c])
  = if keep c then dict_set (dict_of_columns keep cols) c (length cols)
    else dict_of_columns keep cols.
Proof.
  unfold dict_of_columns. now rewrite enumerate_snoc, foldl_snoc.
Qed.

Lemma dict_of_columns_ext keep keep' (cols : list ColumnMetadata) :
  (forall c, keep c = keep' c) ->
  dict_of_columns keep cols = dict_of_columns keep' cols.
Proof.
  intros E. induction cols as [|c cols IH] using rev_ind; [reflexivity|].
  now rewrite !dict_of_columns_snoc, IH, E.
Qed.

Lemma dict_set_elem (d : list (ColumnMetadata * nat)) c i c' j :
  (c', j) ∈ dict_set d c i ->
  (c', j) ∈ d \/ (j = i /\ obj_id c' = obj_id c).
Proof.
  induction d as [|[c0 j0] d IH]; cbn [dict_set].
  - intros Hin. apply list_elem_of_singleton in Hin. injection Hin as -> ->.
    now right.
  - unfold same_object. destruct (Nat.eqb_spec (obj_id c0) (obj_id c)) as [E|_].
    + intros Hin. apply elem_of_cons in Hin as [Hin|Hin].
      * injection Hin as -> ->. now right.
      * left. now right.
    + intros Hin. apply elem_of_cons in Hin as [Hin|Hin].
      * left. rewrite Hin. left.
      * destruct (IH Hin) as [H1|H2]; [left; now right | now right].
Qed.

Lemma dict_set_fresh (d : list (ColumnMetadata * nat)) c i :
  (forall c' j, (c', j) ∈ d -> obj_id c' <> obj_id c) ->
  dict_set d c i = d ++ [(c, i)].
Proof.
  induction d as [|[c0 j0] d IH]; intros Hfresh; [reflexivity|].
  cbn [dict_set]. unfold same_object.
  destruct (Nat.eqb_spec (obj_id c0) (obj_id c)) as [E|_].
  - exfalso. apply (Hfresh c0 j0); [left | exact E].
  - cbn. f_equal. apply IH. intros c' j Hin. apply (Hfresh c' j). now right.
Qed.

(** Every entry of the dictionary points at a position of the table's
    columns where the same object stands, and the object passed the
    filter. *)
Lemma dict_of_columns_entries keep (cols : list ColumnMetadata) c i :
  (c, i) ∈ dict_of_columns keep cols ->
  exists c', cols !! i = Some c' /\ obj_id c' = obj_id c /\ keep c' = true.
Proof.
  revert c i. induction cols as [|x cols IH] using rev_ind; intros c i Hin.
  - inversion Hin.
  - rewrite dict_of_columns_snoc in Hin.
    assert (Hold : (c, i) ∈ dict_of_columns keep cols ->
                   exists c', (cols ++ [x]) !! i = Some c' /\
                              obj_id c' = obj_id c /\ keep c' = true).
    { intros Hin'. destruct (IH _ _ Hin') as (c' & Hc' & Hid & Hk).
      exists c'. split; [|easy].
      rewrite lookup_app_l; [exact Hc' | now apply lookup_lt_Some in Hc']. }
    destruct (keep x) eqn:Hk; [|now apply Hold].
    apply dict_set_elem in Hin as [Hin | [-> Hid]]; [now apply Hold|].
    exists x. split; [apply list_lookup_middle; reflexivity | easy].
Qed.

Lemma map_raising_returns {X Y} (f : X -> outcome Y) (xs : list X) :
  (forall x, x ∈ xs -> exists y, f x = Returned y) ->
  exists ys, map_raising f xs = Returned ys /\
             Forall2 (fun x y => f x = Returned y) xs ys.
Proof.
  induction xs as [|x xs IH]; intros Hall.
  - exists []. split; [reflexivity | constructor].
  - destruct (Hall x) as [y Hy]; [left|].
    destruct IH as (ys & Hys & Hf); [intros x' Hin; apply Hall; now right|].
    exists (y :: ys). split; [|now constructor].
    cbn [map_raising]. now rewrite Hy, Hys.
Qed.

Lemma map_raising_raises {X Y} (f : X -> outcome Y) (xs : list X) (e : exn) :
  map_raising f xs = Raised e -> exists x, x ∈ xs /\ f x = Raised e.
Proof.
  induction xs as [|x xs IH]; [discriminate|].
  cbn [map_raising]. destruct (f x) as [y|e'] eqn:Hx; cbn [bind].
  - destruct (map_raising f xs) as [ys|e'']; cbn [bind]; [discriminate|].
    intros [= ->]. destruct IH as (x' & Hin & Hx'); [reflexivity|].
    exists x'. split; [now right | exact Hx'].
  - intros [= ->]. exists x. split; [left | exact Hx].
Qed.

(** X2. The key columns [get_by], [find_by] and [delete] look up are
    positions of the table's columns: a row with at least one value for
    each column of the table always yields its key, one component for
    each entry of the dictionary, and [key_of_row] raises nothing but
    [IndexError], which takes a row that is too short. *)
Theorem key_of_row_on_full_rows keep (cols : list ColumnMetadata) (row : tuple) :
  (length cols <= length row ->
   exists key,
     key_of_row (dict_of_columns keep cols) row = Returned key /\
     length key = length (dict_of_columns keep cols)) /\
  (forall e,
     key_of_row (dict_of_columns keep cols) row = Raised e ->
     e = IndexError /\ length row < length cols).
Proof.
  split.
  - intros Hlen. unfold key_of_row.
    destruct (map_raising_returns (index row)
                (dict_values (dict_of_columns keep cols))) as (key & Hkey & Hf).
    + intros i Hi. unfold dict_values in Hi.
      apply list_elem_of_fmap in Hi as ([c j] & -> & Hin).
      destruct (dict_of_columns_entries _ _ _ _ Hin) as (c' & Hc' & _).
      apply lookup_lt_Some in Hc'. cbn [snd]. unfold index.
      destruct (lookup_lt_is_Some_2 row j) as [v ->]; [lia | eauto].
    + exists key. split; [exact Hkey|].
      apply Forall2_length in Hf. unfold dict_values in Hf.
      now rewrite length_map in Hf.
  - intros e He. unfold key_of_row in He.
    apply map_raising_raises in He as (j & Hj & Hraise).
    unfold dict_values in Hj.
    apply list_elem_of_fmap in Hj as ([c j'] & -> & Hin).
    destruct (dict_of_columns_entries _ _ _ _ Hin) as (c' & Hc' & _).
    apply lookup_lt_Some in Hc'. cbn [snd] in *. unfold index in Hraise.
    destruct (row !! j') eqn:Hrow; [discriminate|].
    injection Hraise as <-. apply lookup_ge_None in Hrow. split; [reflexivity | lia].
Qed.

Lemma key_of_row_on_full_rows_witness :
  length (columns (meta Items.Table)) <= length [VInt 2; VStr "b"] /\
  exists key,
    key_of_row (matches_of Items.Table ["name"%string]) [VInt 2; VStr "b"]
    = Returned key /\ length key = 1.
Proof.
  split; [cbn; lia|].
  destruct (key_of_row_on_full_rows
              (fun c => bool_decide (field_name c ∈ ["name"%string]))
              (columns (meta Items.Table)) [VInt 2; VStr "b"]) as [Hfull _].
  destruct Hfull as (key & Hkey & Hlen); [cbn; lia|].
  exists key. split; [exact Hkey | exact Hlen].
Defined.

(** X3. When the columns of a table are distinct objects, the dictionary
    lists the columns that pass the filter in the order of the table and
    maps each to its position: a key tuple has its components in column
    order. *)
Theorem dict_of_columns_in_table_order keep (cols : list ColumnMetadata) :
  NoDup (obj_id <$> cols) ->
  dict_of_columns keep cols
  = filter (fun p => keep p.1 = true) (imap (fun i c => (c, i)) cols) /\
  dict_keys (dict_of_columns keep cols) = filter (fun c => keep c = true) cols.
Proof.
  intros Hnd.
  assert (Hfst :
    dict_of_columns keep cols
    = filter (fun p => keep p.1 = true) (imap (fun i c => (c, i)) cols)).
  { induction cols as [|x cols IH] using rev_ind; [reflexivity|].
    rewrite fmap_app in Hnd. apply NoDup_app in Hnd as (Hnd & Hfresh & _).
    rewrite dict_of_columns_snoc, imap_app, filter_app, <- (IH Hnd).
    cbn [imap]. rewrite Nat.add_0_r, filter_cons, filter_nil. cbn [fst].
    destruct (keep x) eqn:Hk.
    - rewrite decide_True by reflexivity.
      apply dict_set_fresh. intros c' j Hin Hid.
      destruct (dict_of_columns_entries _ _ _ _ Hin) as (c'' & Hc'' & Hid'' & _).
      apply (Hfresh (obj_id x)).
      + apply list_elem_of_fmap. exists c''. split; [congruence|].
        eapply list_elem_of_lookup_2; eauto.
      + cbn. left.
    - rewrite decide_False by discriminate. now rewrite app_nil_r. }
  split; [exact Hfst|].
  rewrite Hfst. unfold dict_keys. clear Hfst Hnd.
  induction cols as [|x cols IH] using rev_ind; [reflexivity|].
  rewrite imap_app, !filter_app, map_app, IH. f_equal.
  cbn [imap]. rewrite !filter_cons, !filter_nil. cbn [fst].
  destruct (decide (keep x = true)); reflexivity.
Qed.

Lemma dict_of_columns_in_table_order_witness :
  NoDup (obj_id <$> columns (meta Schemata.Table)) /\
  dict_keys (matches_of Schemata.Table ["schema_name"; "catalog_name"]%string)
  = [Schemata.column 0 "catalog_name" "catalog_name" "name";
     Schemata.column 1 "schema_name" "schema_name" "name"].
Proof.
  assert (Hnd : NoDup (obj_id <$> columns (meta Schemata.Table))).
  { change (NoDup (seq 0 7)). apply NoDup_seq. }
  split; [exact Hnd|].
  destruct (dict_of_columns_in_table_order
              (fun c => bool_decide
                          (field_name c ∈ ["schema_name"; "catalog_name"]%string))
              (columns (meta Schemata.Table)) Hnd) as [_ ->].
  vm_compute. reflexivity.
Defined.

(** ** More on [get_by] and [find_by] *)

Section MoreLookups.
Context {TRecord : Type}.
Implicit Types (self : TableGateway TRecord) (h : SQLHandle).

(** X4. The filter [by] is used as a set: two filters that name the same
    fields, in any order and with any repetition, give the same
    statement, the same arguments and the same result.  The components
    of a key tuple follow the table's columns, not the filter. *)
Theorem by_is_used_as_a_set self h (by_ by' : list string) (keys : list tuple) :
  (forall f, f ∈ by_ <-> f ∈ by') ->
  get_by self h by_ keys = get_by self h by' keys /\
  find_by self h by_ keys = find_by self h by' keys.
Proof.
  intros Hsame.
  assert (Hm : matches_of self by_ = matches_of self by').
  { apply dict_of_columns_ext. intros c. apply bool_decide_ext, Hsame. }
  unfold get_by, find_by. cbv zeta. now rewrite Hm.
Qed.

Lemma records_matching_app self matches (key : tuple) (rows1 rows2 : list tuple) :
  records_matching self matches key (rows1 ++ rows2)
  = records_matching self matches key rows1
    ++ records_matching self matches key rows2.
Proof. unfold records_matching. apply flat_map_app. Qed.

Lemma get_by_result self h by_ (keys rows : list tuple) :
  (forall sql args, respond h sql args = rows) ->
  Forall (row_ok self (matches_of self by_)) rows ->
  (get_by self h by_ keys).1
  = Returned (map (fun key =>
                     last (records_matching self (matches_of self by_) key rows))
                  keys).
Proof.
  intros Hrows Hok.
  destruct (get_by_unfold self by_ keys) as [sql Hun].
  rewrite Hun, Hrows. cbn [fst].
  destruct (get_by_loop self _ rows ∅ Hok) as (m & -> & Hget).
  cbn [bind]. f_equal. apply map_ext. intros key.
  rewrite Hget. destruct (last _); [reflexivity | apply lookup_empty].
Qed.

Lemma find_by_result self h by_ (keys rows : list tuple) :
  (forall sql args, respond h sql args = rows) ->
  Forall (row_ok self (matches_of self by_)) rows ->
  (find_by self h by_ keys).1
  = Returned (map (fun key =>
                     records_matching self (matches_of self by_) key rows)
                  keys).
Proof.
  intros Hrows Hok.
  destruct (find_by_unfold self by_ keys) as (w & sel & Hun).
  destruct (Hun h) as [_ Hfind]. cbv zeta in Hfind.
  rewrite Hfind, Hrows. cbn [fst].
  destruct (find_by_loop self _ rows ∅ Hok) as (m & -> & Hget).
  cbn [bind]. f_equal. apply map_ext. intros key.
  now rewrite Hget, lookup_empty.
Qed.

(** X5. On a handle that answers with the same rows, each slot of
    [get_by] is the last record of the list [find_by] returns for that
    key, or [None] where the list is empty. *)
Theorem get_by_is_last_of_find_by self h by_ (keys rows : list tuple) :
  (forall sql args, respond h sql args = rows) ->
  Forall (row_ok self (matches_of self by_)) rows ->
  exists slots lists,
    (get_by self h by_ keys).1 = Returned slots /\
    (find_by self h by_ keys).1 = Returned lists /\
    slots = last <$> lists.
Proof.
  intros Hrows Hok. eexists _, _.
  split; [now apply get_by_result|]. split; [now apply find_by_result|].
  now rewrite <- list_fmap_compose.
Qed.

(** X6. When several rows have the same key, [get_by] keeps the record
    of the one that comes last among the rows. *)
Theorem get_by_keeps_the_last_row self h by_ (keys : list tuple)
    (before after : list tuple) (row : tuple) (key : tuple) (obj : TRecord)
    (i : nat) :
  (forall sql args, respond h sql args = before ++ row :: after) ->
  Forall (row_ok self (matches_of self by_)) (before ++ row :: after) ->
  key_of_row (matches_of self by_) row = Returned key ->
  constructor self row = Returned obj ->
  (forall row', row' ∈ after ->
                key_of_row (matches_of self by_) row' <> Returned key) ->
  keys !! i = Some key ->
  exists slots,
    (get_by self h by_ keys).1 = Returned slots /\
    slots !! i = Some (Some obj).
Proof.
  intros Hrows Hok Hkey Hobj Hafter Hi. eexists.
  split; [now apply get_by_result|].
  rewrite list_lookup_fmap, Hi. cbn. f_equal.
  rewrite records_matching_app, records_matching_cons.
  rewrite decide_True by exact Hkey. rewrite Hobj.
  rewrite (records_matching_none _ _ key after Hafter), app_nil_r.
  apply last_snoc.
Qed.

(** X7. A row that lacks a key column, or that the record constructor
    refuses, makes [get_by] and [find_by] raise that exception once the
    rows before it were taken in; the statement was dispatched before. *)
Theorem lookups_raise_on_a_bad_row self h by_ (keys : list tuple)
    (good rest : list tuple) (bad : tuple) (e : exn) :
  (forall sql args, respond h sql args = good ++ bad :: rest) ->
  Forall (row_ok self (matches_of self by_)) good ->
  key_of_row (matches_of self by_) bad = Raised e \/
  (exists key, key_of_row (matches_of self by_) bad = Returned key /\
               constructor self bad = Raised e) ->
  (get_by self h by_ keys).1 = Raised e /\
  (find_by self h by_ keys).1 = Raised e /\
  length (issued (get_by self h by_ keys).2) = S (length (issued h)) /\
  length (issued (find_by self h by_ keys).2) = S (length (issued h)).
Proof.
  intros Hrows Hok Hbad.
  assert (Hloop : forall S (step : option (list TRecord) -> TRecord -> list TRecord)
                         (upd : tuple -> TRecord -> gmap tuple S -> gmap tuple S)
                         (m0 : gmap tuple S) rows,
            Forall (row_ok self (matches_of self by_)) rows ->
            for_each
              (fun (m : gmap tuple S) row =>
                 key <~ key_of_row (matches_of self by_) row ;;
                 obj <~ constructor self row ;;
                 Returned (upd key obj m))
              m0 (rows ++ bad :: rest)
            = Raised e).
  { intros S _ upd m0 rows Hrowsok. revert m0.
    induction Hrowsok as [|r rows [[k Hk] [o Ho]] _ IH]; intros m0.
    - cbn [app for_each].
      destruct Hbad as [-> | (k & -> & ->)]; reflexivity.
    - cbn [app for_each]. rewrite Hk, Ho. cbn [bind]. apply IH. }
  destruct (get_by_unfold self by_ keys) as [sql Hun].
  destruct (find_by_unfold self by_ keys) as (w & sel & Hun').
  destruct (Hun' h) as [_ Hfind]. cbv zeta in Hfind.
  rewrite Hun, Hfind, !Hrows. cbn [fst snd record_call issued].
  rewrite !length_app. cbn [length].
  split; [|split; [|split; lia]].
  - now rewrite (Hloop _ (fun _ _ => []) (fun key obj m => <[key := obj]> m)).
  - now rewrite (Hloop _ (fun _ _ => [])
                   (fun key obj m => match m !! key with
                                     | None => <[key := [obj]]> m
                                     | Some objs => <[key := objs ++ [obj]]> m
                                     end)).
Qed.

End MoreLookups.

Lemma by_is_used_as_a_set_witness :
  (forall f, f ∈ ["catalog_name"; "schema_name"]%string
             <-> f ∈ ["schema_name"; "catalog_name"; "schema_name"]%string) /\
  get_by Schemata.Table (canned schemata_rows)
    ["catalog_name"; "schema_name"]%string [[VStr "postgres"; VStr "public"]]
  = get_by Schemata.Table (canned schemata_rows)
      ["schema_name"; "catalog_name"; "schema_name"]%string
      [[VStr "postgres"; VStr "public"]].
Proof.
  assert (Hsame : forall f,
            f ∈ ["catalog_name"; "schema_name"]%string
            <-> f ∈ ["schema_name"; "catalog_name"; "schema_name"]%string).
  { intros f. rewrite !elem_of_cons, !elem_of_nil. tauto. }
  split; [exact Hsame|].
  exact (proj1 (by_is_used_as_a_set Schemata.Table (canned schemata_rows)
                  _ _ [[VStr "postgres"; VStr "public"]] Hsame)).
Defined.


Lemma get_by_is_last_of_find_by_witness :
  (forall sql args, respond (canned item_rows_many) sql args = item_rows_many) /\
  Forall (row_ok Items.Table (matches_of Items.Table ["id"%string]))
         item_rows_many /\
  exists lists,
    (find_by Items.Table (canned item_rows_many) ["id"%string]
       [[VInt 2]; [VInt 3]]).1 = Returned lists /\
    (get_by Items.Table (canned item_rows_many) ["id"%string]
       [[VInt 2]; [VInt 3]]).1 = Returned (last <$> lists).
Proof.
  assert (Hok : Forall (row_ok Items.Table (matches_of Items.Table ["id"%string]))
                       item_rows_many).
  { repeat constructor; eexists; vm_compute; reflexivity. }
  split; [reflexivity|]. split; [exact Hok|].
  destruct (get_by_is_last_of_find_by Items.Table (canned item_rows_many)
              ["id"%string] [[VInt 2]; [VInt 3]] item_rows_many
              (fun _ _ => eq_refl) Hok)
    as (slots & lists & Hg & Hf & ->).
  exists lists. split; [exact Hf | exact Hg].
Defined.

Lemma get_by_keeps_the_last_row_witness :
  Forall (row_ok Items.Table (matches_of Items.Table ["id"%string]))
         item_rows_many /\
  exists slots,
    (get_by Items.Table (canned item_rows_many) ["id"%string]
       [[VInt 1]; [VInt 2]]).1 = Returned slots /\
    slots !! 1 = Some (Some (Items.item 2 "c")).
Proof.
  assert (Hok : Forall (row_ok Items.Table (matches_of Items.Table ["id"%string]))
                       item_rows_many).
  { repeat constructor; eexists; vm_compute; reflexivity. }
  split; [exact Hok|].
  apply (get_by_keeps_the_last_row Items.Table (canned item_rows_many)
           ["id"%string] [[VInt 1]; [VInt 2]]
           [[VInt 2; VStr "b"]; [VInt 1; VStr "a"]] []
           [VInt 2; VStr "c"] [VInt 2] (Items.item 2 "c") 1).
  - reflexivity.
  - exact Hok.
  - reflexivity.
  - reflexivity.
  - intros row' Hin. inversion Hin.
  - reflexivity.
Defined.

Lemma lookups_raise_on_a_bad_row_witness :
  Forall (row_ok Items.Table (matches_of Items.Table ["name"%string]))
         [[VInt 2; VStr "b"]] /\
  key_of_row (matches_of Items.Table ["name"%string]) [VInt 1] = Raised IndexError /\
  (get_by Items.Table (canned [[VInt 2; VStr "b"]; [VInt 1]; [VInt 3; VStr "c"]])
     ["name"%string] [[VStr "b"]]).1 = Raised IndexError.
Proof.
  assert (Hok : Forall (row_ok Items.Table (matches_of Items.Table ["name"%string]))
                       [[VInt 2; VStr "b"]]).
  { repeat constructor; eexists; vm_compute; reflexivity. }
  split; [exact Hok|]. split; [reflexivity|].
  apply (lookups_raise_on_a_bad_row Items.Table
           (canned [[VInt 2; VStr "b"]; [VInt 1]; [VInt 3; VStr "c"]])
           ["name"%string] [[VStr "b"]]
           [[VInt 2; VStr "b"]] [[VInt 3; VStr "c"]] [VInt 1] IndexError).
  - reflexivity.
  - exact Hok.
  - left. reflexivity.
Defined.

Section UncheckedFilters.
Context {TRecord : Type}.
Implicit Types (self : TableGateway TRecord) (h : SQLHandle).

Lemma dict_of_columns_none keep (cols : list ColumnMetadata) :
  (forall c, c ∈ cols -> keep c = false) ->
  dict_of_columns keep cols = [].
Proof.
  induction cols as [|x cols IH] using rev_ind; intros Hnone; [reflexivity|].
  rewrite dict_of_columns_snoc, (Hnone x), IH.
  - reflexivity.
  - intros c Hin. apply Hnone, elem_of_app. now left.
  - apply elem_of_app. right. left.
Qed.

(** X8. A filter that names no field of the table is not refused: the
    dictionary of key columns is empty, the statement is dispatched with
    the [zip] of the keys all the same, every row then has the empty
    key, and every key that is not the empty tuple gets [None]. *)
Theorem filter_naming_no_column self h by_ (keys rows : list tuple) :
  (forall col, col ∈ columns (meta self) -> field_name col ∉ by_) ->
  (forall sql args, respond h sql args = rows) ->
  (forall row, row ∈ rows -> exists obj, constructor self row = Returned obj) ->
  matches_of self by_ = [] /\
  (forall row, key_of_row (matches_of self by_) row = Returned []) /\
  call_args <$> last (issued (get_by self h by_ keys).2) = Some (zip_star keys) /\
  exists slots,
    (get_by self h by_ keys).1 = Returned slots /\
    forall i key, keys !! i = Some key -> key <> [] -> slots !! i = Some None.
Proof.
  intros Hno Hrows Hctor.
  assert (Hm : matches_of self by_ = []).
  { apply dict_of_columns_none. intros c Hc.
    apply bool_decide_eq_false, Hno, Hc. }
  assert (Hkey : forall row, key_of_row (matches_of self by_) row = Returned []).
  { intros row. now rewrite Hm. }
  split; [exact Hm|]. split; [exact Hkey|]. split.
  - destruct (get_by_dispatch self h by_ keys) as [sql ->].
    now rewrite last_snoc.
  - eexists. split.
    + apply get_by_result; [exact Hrows|].
      apply Forall_forall. intros row Hin. split; [eauto | now apply Hctor].
    + intros i key Hi Hne. rewrite list_lookup_fmap, Hi. cbn. f_equal.
      rewrite records_matching_none; [reflexivity|].
      intros row _. rewrite Hkey. congruence.
Qed.

Lemma concat_matching (keys : list tuple) (k : tuple) (obj : TRecord)
    (B : tuple -> list TRecord) :
  NoDup keys ->
  concat (map (fun key =>
                 (if decide (Returned k = Returned key :> outcome tuple)
                  then [obj] else []) ++ B key) keys)
  ≡ₚ (if decide (k ∈ keys) then [obj] else []) ++ concat (map B keys).
Proof.
  induction 1 as [|key0 keys Hnotin Hnd IH]; [reflexivity|].
  cbn [map concat]. rewrite IH.
  destruct (decide (Returned k = Returned key0)) as [[= <-]|Hne].
  - rewrite (decide_True (P := k ∈ k :: keys)) by left.
    rewrite (decide_False (P := k ∈ keys)) by exact Hnotin.
    now rewrite <- app_assoc.
  - destruct (decide (k ∈ keys)) as [Hin|Hnin].
    + rewrite (decide_True (P := k ∈ key0 :: keys)) by (now right).
      change ([] ++ B key0) with (B key0).
      change ([obj] ++ concat (map B keys)) with (obj :: concat (map B keys)).
      change ([obj] ++ B key0 ++ concat (map B keys))
        with (obj :: B key0 ++ concat (map B keys)).
      symmetry. apply Permutation_middle.
    + rewrite (decide_False (P := k ∈ key0 :: keys)); [reflexivity|].
      intros Hin. apply elem_of_cons in Hin as [->|Hin]; [congruence | tauto].
Qed.

(** X9. Asked for distinct keys that cover the key of every row,
    [find_by] returns the record of each row exactly once: the lists
    taken together are the records of the rows, up to their order. *)
Theorem find_by_returns_every_row_once self h by_ (keys rows : list tuple) :
  (forall sql args, respond h sql args = rows) ->
  Forall (row_ok self (matches_of self by_)) rows ->
  NoDup keys ->
  (forall row, row ∈ rows ->
     exists key, key ∈ keys /\
                 key_of_row (matches_of self by_) row = Returned key) ->
  exists lists,
    (find_by self h by_ keys).1 = Returned lists /\
    Returned <$> concat lists ≡ₚ constructor self <$> rows.
Proof.
  intros Hrows Hok Hnd Hcover. eexists.
  split; [now apply find_by_result|].
  clear Hrows. induction Hok as [|row rows [_ [obj Hobj]] _ IH].
  - cbn [fmap list_fmap]. clear. induction keys as [|key keys IH]; [reflexivity|].
    cbn [map concat]. exact IH.
  - destruct (Hcover row) as (k & Hk & Hkey); [left|].
    assert (Hstep :
      concat (map (fun key =>
                     records_matching self (matches_of self by_) key (row :: rows))
                  keys)
      ≡ₚ obj :: concat (map (fun key =>
                     records_matching self (matches_of self by_) key rows) keys)).
    { erewrite map_ext; [|intros key; rewrite records_matching_cons, Hkey, Hobj;
                           reflexivity].
      rewrite (concat_matching keys k obj) by exact Hnd.
      now rewrite decide_True by exact Hk. }
    rewrite Hstep. cbn [fmap list_fmap]. rewrite Hobj. constructor.
    apply IH. intros row' Hin. apply Hcover. now right.
Qed.

End UncheckedFilters.

Lemma filter_naming_no_column_witness :
  (forall col, col ∈ columns (meta Items.Table) ->
               field_name col ∉ ["title"%string]) /\
  exists slots,
    (get_by Items.Table (canned item_rows) ["title"%string]
       [[VStr "b"]; [VStr "z"]]).1 = Returned slots /\
    slots !! 0 = Some None.
Proof.
  assert (Hno : forall col, col ∈ columns (meta Items.Table) ->
                            field_name col ∉ ["title"%string]).
  { intros col Hin Hf. apply list_elem_of_singleton in Hf.
    change (col ∈ [Items.id_column; Items.name_column]) in Hin.
    rewrite !elem_of_cons, elem_of_nil in Hin.
    destruct Hin as [-> | [-> | []]]; discriminate Hf. }
  split; [exact Hno|].
  destruct (filter_naming_no_column Items.Table (canned item_rows)
              ["title"%string] [[VStr "b"]; [VStr "z"]] item_rows Hno
              (fun _ _ => eq_refl))
    as (_ & _ & _ & slots & Hs & Hnone).
  - intros row Hin. unfold item_rows in Hin.
    rewrite !elem_of_cons, elem_of_nil in Hin.
    destruct Hin as [-> | [-> | []]]; eexists; reflexivity.
  - exists slots. split; [exact Hs|].
    apply (Hnone 0 [VStr "b"]); [reflexivity | discriminate].
Defined.

Lemma find_by_returns_every_row_once_witness :
  Forall (row_ok Items.Table (matches_of Items.Table ["id"%string]))
         item_rows_many /\
  NoDup [[VInt 1]; [VInt 2]] /\
  exists lists,
    (find_by Items.Table (canned item_rows_many) ["id"%string]
       [[VInt 1]; [VInt 2]]).1 = Returned lists /\
    length (concat lists) = 3.
Proof.
  assert (Hok : Forall (row_ok Items.Table (matches_of Items.Table ["id"%string]))
                       item_rows_many).
  { repeat constructor; eexists; vm_compute; reflexivity. }
  assert (Hnd : NoDup [[VInt 1]; [VInt 2]]).
  { repeat constructor; rewrite ?elem_of_cons, ?elem_of_nil; intuition discriminate. }
  split; [exact Hok|]. split; [exact Hnd|].
  destruct (find_by_returns_every_row_once Items.Table (canned item_rows_many)
              ["id"%string] [[VInt 1]; [VInt 2]] item_rows_many
              (fun _ _ => eq_refl) Hok Hnd)
    as (lists & Hl & Hperm).
  - intros row Hin. unfold item_rows_many in Hin.
    rewrite !elem_of_cons, elem_of_nil in Hin.
    destruct Hin as [-> | [-> | [-> | []]]]; eexists; (split; [|reflexivity]);
      rewrite !elem_of_cons; tauto.
  - exists lists. split; [exact Hl|].
    apply Permutation_length in Hperm. now rewrite !length_fmap in Hperm.
Defined.

(** ** More on the argument arrays *)

Lemma shortest_rectangular (tuples : list tuple) (n : nat) :
  tuples <> [] ->
  Forall (fun t => length t = n) tuples ->
  shortest tuples = n.
Proof.
  intros Hne Hall. induction Hall as [|t rest Ht Hrest IH]; [congruence|].
  destruct rest as [|t' rest]; [exact Ht|].
  change (shortest (t :: t' :: rest))
    with (Nat.min (length t) (shortest (t' :: rest))).
  rewrite IH by discriminate. lia.
Qed.

(** X10. A batch of tuples that all have the same positive arity can be
    read back from the argument arrays: transposing the arrays with
    [zip] again gives the tuples, in their order and with every
    component.  Nothing is lost when the arities agree. *)
Theorem zip_star_reads_back (tuples : list tuple) (n : nat) :
  tuples <> [] ->
  0 < n ->
  Forall (fun t => length t = n) tuples ->
  length (zip_star tuples) = n /\
  Forall (fun col => length col = length tuples) (zip_star tuples) /\
  zip_star (zip_star tuples) = tuples.
Proof.
  intros Hne Hn Hall.
  assert (Hlen : length (zip_star tuples) = n).
  { rewrite zip_star_length. now apply shortest_rectangular. }
  assert (Hcols : Forall (fun col => length col = length tuples) (zip_star tuples)).
  { apply Forall_forall. intros col Hin.
    apply list_elem_of_lookup in Hin as [j Hj].
    now destruct (zip_star_lookup _ _ _ Hj). }
  split; [exact Hlen|]. split; [exact Hcols|].
  assert (Hlen2 : length (zip_star (zip_star tuples)) = length tuples).
  { rewrite zip_star_length. apply shortest_rectangular; [|exact Hcols].
    intros E. rewrite E in Hlen. cbn in Hlen. lia. }
  apply list_eq. intros i.
  destruct (tuples !! i) as [t|] eqn:Ht.
  - destruct (lookup_lt_is_Some_2 (zip_star (zip_star tuples)) i) as [r Hr].
    { rewrite Hlen2. now apply lookup_lt_Some in Ht. }
    rewrite Hr. f_equal.
    destruct (zip_star_lookup _ _ _ Hr) as [Hrlen Hrget].
    assert (Htlen : length t = n).
    { rewrite Forall_forall in Hall. apply Hall.
      eapply list_elem_of_lookup_2; eauto. }
    apply list_eq. intros j.
    destruct (zip_star tuples !! j) as [col|] eqn:Hcol.
    + rewrite (Hrget j col Hcol).
      destruct (zip_star_lookup _ _ _ Hcol) as [_ Hget]. now apply Hget.
    + apply lookup_ge_None in Hcol.
      rewrite (proj2 (lookup_ge_None r j)) by lia.
      symmetry. apply lookup_ge_None. lia.
  - apply lookup_ge_None in Ht. apply lookup_ge_None. lia.
Qed.

Lemma zip_star_reads_back_witness :
  [[VInt 1; VStr "a"]; [VInt 2; VStr "b"]; [VInt 3; VStr "c"]] <> [] /\
  0 < 2 /\
  zip_star (zip_star [[VInt 1; VStr "a"]; [VInt 2; VStr "b"]; [VInt 3; VStr "c"]])
  = [[VInt 1; VStr "a"]; [VInt 2; VStr "b"]; [VInt 3; VStr "c"]].
Proof.
  split; [discriminate|]. split; [lia|].
  apply (zip_star_reads_back _ 2); [discriminate | lia | repeat constructor].
Defined.

(** ** More on [insert], [save] and [delete] *)

Lemma map_raising_Returned {X Y} (f : X -> outcome Y) (xs : list X) (ys : list Y) :
  map_raising f xs = Returned ys ->
  Forall2 (fun x y => f x = Returned y) xs ys.
Proof.
  revert ys. induction xs as [|x xs IH]; intros ys.
  - intros [= <-]. constructor.
  - cbn [map_raising]. destruct (f x) as [y|e] eqn:Hx; [|discriminate].
    cbn [bind]. destruct (map_raising f xs) as [ys'|e]; [|discriminate].
    intros [= <-]. constructor; [exact Hx | now apply IH].
Qed.

Section WritePath.
Context {TRecord : Type} `{NamedTuple TRecord} `{PySetOrder}.
Implicit Types (self : TableGateway TRecord) (h : SQLHandle).

(** X11. Each operation hands the handle at most one statement, however
    many keys or records it is given, and the text of that statement is
    fixed by the gateway (and by the filter for the lookups): only the
    argument arrays change with the batch.  The lookups and [insert]
    always record exactly one statement; [save] and [delete] either
    raise and give the handle back as it was, or return and record
    exactly one. *)
Theorem one_statement_whatever_the_batch self by_ :
  (exists sql, forall h keys,
     (get_by self h by_ keys).2 = record_call h sql (zip_star keys)) /\
  (exists sql, forall h keys,
     (find_by self h by_ keys).2 = record_call h sql (zip_star keys)) /\
  (exists sql, forall h records,
     insert self h records
     = (Returned tt, record_call h sql (zip_star (map nt_iter records)))) /\
  (exists sql, forall h records,
     (exists e, save self h records = (Raised e, h)) \/
     save self h records
     = (Returned tt, record_call h sql (zip_star (map nt_iter records)))) /\
  (exists sql, forall h records,
     (exists e, delete self h records = (Raised e, h)) \/
     (exists args,
        delete self h records = (Returned tt, record_call h sql args))) /\
  (forall h sql args,
     issued (record_call h sql args)
     = issued h ++ [{| call_sql := sql; call_args := args |}] /\
     respond (record_call h sql args) = respond h).
Proof.
  split; [eexists; intros; reflexivity|].
  split; [eexists; intros; reflexivity|].
  split; [eexists; intros; reflexivity|].
  split; [|split; [|intros; split; reflexivity]].
  - unfold save. destruct (primary_key (meta self)) as [pk|].
    + destruct (decide (pk = ∅)).
      * exists EmptyString. intros. left. eexists. reflexivity.
      * eexists. intros. right. reflexivity.
    + exists EmptyString. intros. left. eexists. reflexivity.
  - unfold delete. destruct (primary_key (meta self)) as [pk|].
    + destruct (decide (pk = ∅)).
      * exists EmptyString. intros. left. eexists. reflexivity.
      * eexists. intros h records.
        destruct (map_raising _ _) as [args|e].
        -- right. exists args. reflexivity.
        -- left. exists e. reflexivity.
    + exists EmptyString. intros. left. eexists. reflexivity.
Qed.

(** X12. On a table with a primary key, [delete] reads each argument
    from the records by the key column's [column_name] (not its
    [field_name]): when every record has those attributes the statement
    is dispatched with one array for each key column, holding that
    attribute of every record in order; when a record lacks one,
    [delete] raises [AttributeError] and the handle is given nothing. *)
Theorem delete_reads_attributes_by_column_name self h (records : list TRecord)
    (pk : gset string) :
  primary_key (meta self) = Some pk ->
  pk <> ∅ ->
  let key_columns :=
    dict_keys (dict_of_columns (fun c => bool_decide (field_name c ∈ pk))
                               (columns (meta self))) in
  ((forall col rec, col ∈ key_columns -> rec ∈ records ->
                    is_Some (nt_getattr rec (column_name col))) ->
   exists sql args,
     delete self h records = (Returned tt, record_call h sql args) /\
     Forall2 (fun col arg =>
                Forall2 (fun rec v => nt_getattr rec (column_name col) = Some v)
                        records arg)
             key_columns args) /\
  (forall col rec, col ∈ key_columns -> rec ∈ records ->
                   nt_getattr rec (column_name col) = None ->
   exists name, delete self h records = (Raised (AttributeError name), h)).
Proof.
  intros Hpk Hne key_columns.
  assert (Hget : forall (rec : TRecord) name v,
            getattr rec name = Returned v <-> nt_getattr rec name = Some v).
  { intros rec name v. unfold getattr.
    destruct (nt_getattr rec name); split; congruence. }
  assert (Hdel : forall r,
            map_raising
              (fun col => map_raising (fun rec => getattr rec (column_name col))
                                      records) key_columns = r ->
            exists sql,
              delete self h records
              = match r with
                | Returned args => (Returned tt, exec h sql args)
                | Raised e => (Raised e, h)
                end).
  { intros r <-. unfold delete. rewrite Hpk.
    destruct (decide (pk = ∅)); [congruence|].
    eexists. cbv zeta. fold key_columns.
    destruct (map_raising _ key_columns); reflexivity. }
  split.
  - intros Hall.
    destruct (map_raising_returns
                (fun col => map_raising (fun rec => getattr rec (column_name col))
                                        records) key_columns)
      as (args & Hargs & Hf).
    { intros col Hcol.
      destruct (map_raising_returns (fun rec => getattr rec (column_name col))
                  records) as (arg & Harg & _); [|eauto].
      intros rec Hrec. destruct (Hall col rec Hcol Hrec) as [v Hv].
      exists v. now apply Hget. }
    destruct (Hdel _ Hargs) as [sql Hsql].
    exists sql, args. split; [exact Hsql|].
    eapply Forall2_impl; [exact Hf|].
    intros col arg Harg. apply map_raising_Returned in Harg.
    eapply Forall2_impl; [exact Harg|]. intros rec v. apply Hget.
  - intros col rec Hcol Hrec Hnone.
    destruct (Hdel _ eq_refl) as [sql Hsql]. clear Hdel.
    destruct (map_raising
                (fun col => map_raising (fun rec => getattr rec (column_name col))
                                        records) key_columns)
      as [args|e] eqn:Hr.
    + exfalso. apply map_raising_Returned in Hr.
      apply list_elem_of_lookup in Hcol as [i Hi].
      destruct (Forall2_lookup_l _ _ _ _ _ Hr Hi) as (arg & _ & Harg).
      apply map_raising_Returned in Harg.
      apply list_elem_of_lookup in Hrec as [j Hj].
      destruct (Forall2_lookup_l _ _ _ _ _ Harg Hj) as (v & _ & Hv).
      apply Hget in Hv. congruence.
    + apply map_raising_raises in Hr as (col' & _ & Hr).
      apply map_raising_raises in Hr as (rec' & _ & Hr).
      unfold getattr in Hr. destruct (nt_getattr rec' _); [discriminate|].
      injection Hr as <-. eexists. exact Hsql.
Qed.

End WritePath.

Lemma delete_reads_attributes_by_column_name_witness :
  primary_key (meta Items.Table) = Some {["id"%string]} /\
  ({["id"%string]} : gset string) <> ∅ /\
  exists sql args,
    delete Items.Table (canned []) [Items.item 1 "a"; Items.item 2 "b"]
    = (Returned tt, record_call (canned []) sql args) /\
    Forall2 (fun col arg =>
               Forall2 (fun rec v => nt_getattr rec (column_name col) = Some v)
                       [Items.item 1 "a"; Items.item 2 "b"] arg)
            (dict_keys (dict_of_columns
                          (fun c => bool_decide (field_name c ∈ ({["id"%string]} : gset string)))
                          (columns (meta Items.Table))))
            args.
Proof.
  split; [reflexivity|]. split; [apply non_empty_singleton_L|].
  destruct (@delete_reads_attributes_by_column_name _ _ Items.Table (canned [])
              [Items.item 1 "a"; Items.item 2 "b"] {["id"%string]} eq_refl
              (non_empty_singleton_L _)) as [Hall _].
  apply Hall. intros col rec Hcol Hrec.
  assert (Hc : col = Items.id_column).
  { revert Hcol. vm_compute. intros Hcol.
    apply list_elem_of_singleton in Hcol. exact Hcol. }
  subst col. rewrite !elem_of_cons, elem_of_nil in Hrec.
  destruct Hrec as [-> | [-> | []]]; eexists; reflexivity.
Defined.

Section KeyAndSetterColumns.
Context `{PySetOrder}.

Lemma set_of_columns_snoc keep (cols : list ColumnMetadata) (c : ColumnMetadata) :
  set_of_columns keep (cols ++ [c])
  = if keep c then set_add (set_of_columns keep cols) c
    else set_of_columns keep cols.
Proof. unfold set_of_columns. now rewrite foldl_snoc. Qed.

Lemma set_of_columns_members keep (cols : list ColumnMetadata) c :
  c ∈ set_of_columns keep cols -> c ∈ cols /\ keep c = true.
Proof.
  induction cols as [|x cols IH] using rev_ind; [inversion 1|].
  rewrite set_of_columns_snoc, elem_of_app. destruct (keep x) eqn:Hk.
  - unfold set_add. destruct (existsb _ _).
    + intros Hin. destruct (IH Hin). tauto.
    + rewrite elem_of_app. intros [Hin | Hin].
      * destruct (IH Hin). tauto.
      * apply list_elem_of_singleton in Hin as ->. split; [right; left | exact Hk].
  - intros Hin. destruct (IH Hin). tauto.
Qed.

Lemma set_of_columns_filter keep (cols : list ColumnMetadata) :
  NoDup (obj_id <$> cols) ->
  set_of_columns keep cols = filter (fun c => keep c = true) cols.
Proof.
  induction cols as [|x cols IH] using rev_ind; intros Hnd; [reflexivity|].
  rewrite fmap_app in Hnd. apply NoDup_app in Hnd as (Hnd & Hfresh & _).
  rewrite set_of_columns_snoc, filter_app, <- (IH Hnd), filter_cons, filter_nil.
  destruct (keep x) eqn:Hk.
  - rewrite decide_True by reflexivity. unfold set_add.
    destruct (existsb _ _) eqn:Hex; [|reflexivity].
    exfalso. apply existsb_exists in Hex as (c' & Hin & Hsame).
    apply Nat.eqb_eq in Hsame.
    apply (Hfresh (obj_id x)); [|cbn; left].
    apply list_elem_of_fmap. exists c'. split; [congruence|].
    apply list_elem_of_In in Hin.
    now destruct (set_of_columns_members _ _ _ Hin).
  - rewrite decide_False by discriminate. now rewrite app_nil_r.
Qed.

(** X13. [save] on a table whose columns are distinct objects splits
    them in two: every column is a key column (its field is in the
    primary key) or a setter (it is not), never both and none left out,
    in whatever order the two sets are iterated. *)
Theorem save_splits_the_columns (cols : list ColumnMetadata) (pk : gset string) :
  NoDup (obj_id <$> cols) ->
  let matches :=
    set_iter (set_of_columns (fun c => bool_decide (field_name c ∈ pk)) cols) in
  let setters :=
    set_iter (set_of_columns (fun c => bool_decide (field_name c ∉ pk)) cols) in
  matches ++ setters ≡ₚ cols /\
  (forall c, c ∈ matches -> field_name c ∈ pk) /\
  (forall c, c ∈ setters -> field_name c ∉ pk).
Proof.
  intros Hnd matches setters. subst matches setters.
  split; [|split].
  - rewrite !set_iter_perm, !set_of_columns_filter by exact Hnd.
    clear Hnd. induction cols as [|x cols IH]; [reflexivity|].
    rewrite !filter_cons.
    destruct (decide (field_name x ∈ pk)) as [Hin|Hnin].
    + rewrite (decide_True (P := bool_decide (field_name x ∈ pk) = true))
        by (now apply bool_decide_eq_true).
      rewrite (decide_False (P := bool_decide (field_name x ∉ pk) = true))
        by (rewrite bool_decide_eq_true; tauto).
      cbn [app]. now constructor.
    + rewrite (decide_False (P := bool_decide (field_name x ∈ pk) = true))
        by (now rewrite bool_decide_eq_true).
      rewrite (decide_True (P := bool_decide (field_name x ∉ pk) = true))
        by (now apply bool_decide_eq_true).
      rewrite <- Permutation_middle. now constructor.
  - intros c Hc. rewrite set_iter_perm in Hc.
    apply set_of_columns_members in Hc as [_ Hc].
    now apply bool_decide_eq_true in Hc.
  - intros c Hc. rewrite set_iter_perm in Hc.
    apply set_of_columns_members in Hc as [_ Hc].
    now apply bool_decide_eq_true in Hc.
Qed.

End KeyAndSetterColumns.

Lemma save_splits_the_columns_witness :
  NoDup (obj_id <$> columns (meta Items.Table)) /\
  @set_iter insertion_order
    (set_of_columns (fun c => bool_decide (field_name c ∈ ({["id"%string]} : gset string)))
                    (columns (meta Items.Table)))
  ++ @set_iter insertion_order
       (set_of_columns (fun c => bool_decide (field_name c ∉ ({["id"%string]} : gset string)))
                       (columns (meta Items.Table)))
  ≡ₚ columns (meta Items.Table).
Proof.
  assert (Hnd : NoDup (obj_id <$> columns (meta Items.Table))).
  { change (NoDup (seq 0 2)). apply NoDup_seq. }
  split; [exact Hnd|].
  exact (proj1 (@save_splits_the_columns insertion_order
                  (columns (meta Items.Table)) {["id"%string]} Hnd)).
Defined.

Section UnknownKeyFields.
Context {TRecord : Type} `{NamedTuple TRecord}.

(** X14. A primary key that names none of the table's columns is not
    refused either: [delete] then has no key column, reads nothing from
    the records, and dispatches a statement without arguments whose last
    line is [USING __k WHERE] with no predicate after it. *)
Theorem delete_with_unknown_key_fields (self : TableGateway TRecord)
    (h : SQLHandle) (records : list TRecord) (pk : gset string) :
  primary_key (meta self) = Some pk ->
  pk <> ∅ ->
  (forall col, col ∈ columns (meta self) -> field_name col ∉ pk) ->
  exists lines,
    delete self h records
    = (Returned tt,
       record_call h (join (newline self) (lines ++ ["USING __k WHERE "])) []).
Proof.
  intros Hpk Hne Hno. unfold delete. rewrite Hpk.
  destruct (decide (pk = ∅)); [congruence|].
  rewrite dict_of_columns_none
    by (intros c Hc; apply bool_decide_eq_false, Hno, Hc).
  eexists [_; _]. reflexivity.
Qed.

End UnknownKeyFields.

Lemma delete_with_unknown_key_fields_witness :
  ({["uuid"%string]} : gset string) <> ∅ /\
  exists lines,
    delete {| constructor := constructor Items.Table;
              meta := {| table_schema := "public"; table_name := "items";
                         columns := columns (meta Items.Table);
                         primary_key := Some {["uuid"%string]} |};
              newline := newline Items.Table |}
           (canned []) [Items.item 1 "a"]
    = (Returned tt,
       record_call (canned [])
         (join (newline Items.Table) (lines ++ ["USING __k WHERE "])) []).
Proof.
  split; [apply non_empty_singleton_L|].
  apply (@delete_with_unknown_key_fields _ _
           {| constructor := constructor Items.Table;
              meta := {| table_schema := "public"; table_name := "items";
                         columns := columns (meta Items.Table);
                         primary_key := Some {["uuid"%string]} |};
              newline := newline Items.Table |}
           (canned []) [Items.item 1 "a"] {["uuid"%string]} eq_refl
           (non_empty_singleton_L _)).
  intros col Hin Hf. apply elem_of_singleton in Hf.
  change (col ∈ [Items.id_column; Items.name_column]) in Hin.
  rewrite !elem_of_cons, elem_of_nil in Hin.
  destruct Hin as [-> | [-> | []]]; discriminate Hf.
Defined.

Section InsertRoundTrip.
Context {TRecord : Type} `{NamedTuple TRecord}.

(** X15. When the records of a batch all have the same positive number
    of values and the record constructor rebuilds each record from its
    values, the argument arrays [insert] dispatches hold the whole
    batch: there is one array for each position, and transposing them
    back and constructing gives the records again, in order. *)
Theorem insert_arguments_read_back (self : TableGateway TRecord)
    (h : SQLHandle) (records : list TRecord) (n : nat) :
  records <> [] ->
  0 < n ->
  Forall (fun r => length (nt_iter r) = n /\
                   constructor self (nt_iter r) = Returned r) records ->
  exists sql args,
    insert self h records = (Returned tt, record_call h sql args) /\
    length args = n /\
    map (constructor self) (zip_star args) = map Returned records.
Proof.
  intros Hne Hn Hall.
  destruct (insert_dispatch self h records) as [sql Hsql].
  exists sql, (zip_star (map nt_iter records)).
  destruct (zip_star_reads_back (map nt_iter records) n) as (Hlen & _ & Hback).
  - destruct records; [congruence | discriminate].
  - exact Hn.
  - apply Forall_fmap. eapply Forall_impl; [exact Hall|]. now intros r [Hr _].
  - split; [exact Hsql|]. split; [exact Hlen|].
    rewrite Hback, map_map. apply map_ext_Forall.
    eapply Forall_impl; [exact Hall|]. now intros r [_ Hr].
Qed.

End InsertRoundTrip.

(** ** The [Schemata] record *)

(** X16. A [Schemata] record and its row are two views of the same seven
    values: the constructor rebuilds a record from its values, the values
    of a constructed record are the row it was made from, the
    constructor raises [TypeError] exactly on rows that do not have seven
    values, and the i-th column of the table's metadata names the
    attribute that holds the i-th value. *)
Theorem schemata_record_and_row (r : Schemata.t) (row : tuple) :
  Schemata.of_values (nt_iter r) = Returned r /\
  (forall r', Schemata.of_values row = Returned r' -> nt_iter r' = row) /\
  (length row <> 7 <-> Schemata.of_values row = Raised TypeError) /\
  (forall i col,
     columns (meta Schemata.Table) !! i = Some col ->
     nt_getattr r (column_name col) = nt_iter r !! i /\
     nt_getattr r (field_name col) = nt_iter r !! i /\
     is_Some (nt_iter r !! i)).
Proof.
  split; [|split; [|split]].
  - destruct r. reflexivity.
  - intros r'.
    destruct row as [|a [|b [|c [|d [|e [|f [|g [|x row]]]]]]]]; try discriminate.
    intros [= <-]. reflexivity.
  - destruct row as [|a [|b [|c [|d [|e [|f [|g [|x row]]]]]]]]; cbn;
      split; intros Hx; try reflexivity; try discriminate; try lia.
  - intros i col Hcol.
    do 7 (destruct i as [|i];
          [injection Hcol as <-; repeat split; try reflexivity; eexists; reflexivity|]).
    discriminate Hcol.
Qed.

Lemma insert_arguments_read_back_witness :
  [public_schema] <> [] /\ 0 < 7 /\
  exists sql args,
    insert Schemata.Table (canned []) [public_schema]
    = (Returned tt, record_call (canned []) sql args) /\
    length args = 7 /\
    map Schemata.of_values (zip_star args) = [Returned public_schema].
Proof.
  split; [discriminate|]. split; [lia|].
  apply (insert_arguments_read_back Schemata.Table (canned []) [public_schema] 7);
    [discriminate | lia | repeat constructor].
Defined.

Lemma schemata_record_and_row_witness :
  columns (meta Schemata.Table) !! 1
  = Some (Schemata.column 1 "schema_name" "schema_name" "name") /\
  nt_getattr public_schema "schema_name" = Some (VStr "public").
Proof.
  split; [reflexivity|].
  destruct (schemata_record_and_row public_schema []) as (_ & _ & _ & Hcol).
  destruct (Hcol 1 _ eq_refl) as (Hattr & _). exact Hattr.
Defined.

(** ** More on transaction scopes *)

Lemma run_awaited (s : TestSQLHandle) (evs : list scope_event) :
  conn_awaited s = true ->
  conn_awaited (run s evs) = true /\
  tx_level (run s evs) = tx_level s /\
  scopes_made s evs = 0.
Proof.
  revert s. induction evs as [|ev evs IH]; intros s Ha; [repeat split; exact Ha|].
  assert (Hstep : conn_awaited (step s ev) = true /\
                  tx_level (step s ev) = tx_level s /\
                  makes_scope s ev = false).
  { destruct ev as [|tx exc]; cbn [step makes_scope].
    - destruct (transaction_awaited s Ha) as [-> ->]. cbn. now rewrite Ha.
    - destruct (aexit_level tx exc s) as [-> ->]. now rewrite Ha. }
  destruct Hstep as (Ha' & Hl' & Hm).
  destruct (IH (step s ev) Ha') as (H1 & H2 & H3).
  unfold run in *. cbn [foldl scopes_made]. rewrite H1, H2, H3, Hl', Hm.
  repeat split.
Qed.

(** X17. A session hands out one scope at most.  Once [transaction]
    has returned a scope, whatever scopes are left or asked for
    afterwards, every further [transaction] raises [RuntimeError],
    makes no scope, executes no statement and leaves the counter as it
    is; and no history makes more than one scope. *)
Theorem connection_is_acquired_once (s : TestSQLHandle)
    (evs : list scope_event) :
  scopes_made s evs <= 1 /\
  (forall tx s1,
     transaction s = (Returned tx, s1) ->
     transaction (run s1 evs) = (Raised RuntimeError, run s1 evs) /\
     open_scope (run s1 evs) = (Raised RuntimeError, run s1 evs) /\
     step (run s1 evs) Open = run s1 evs /\
     tx_level (run s1 evs) = tx_level s1 /\
     scopes_made s1 evs = 0).
Proof.
  split.
  - revert s. induction evs as [|ev evs IH]; intros s; [cbn; lia|].
    cbn [scopes_made]. destruct (makes_scope s ev) eqn:Hm; [|apply IH].
    destruct ev as [|tx exc]; [|discriminate].
    cbn [makes_scope step] in *. unfold open_scope.
    destruct (transaction s) as [[tx|e] s'] eqn:Ht; [|discriminate].
    apply transaction_returns in Ht as (_ & Ha & _).
    assert (Ha' : conn_awaited (__aenter__ tx s') = true)
      by (now rewrite (proj2 (aenter_level tx s'))).
    cbn [snd]. rewrite (proj2 (proj2 (run_awaited _ evs Ha'))). lia.
  - intros tx s1 Ht. apply transaction_returns in Ht as (_ & Ha & _).
    destruct (run_awaited s1 evs Ha) as (Ha' & Hl & Hm).
    destruct (transaction_awaited _ Ha') as [Htx Hopen].
    split; [exact Htx|]. split; [exact Hopen|].
    split; [cbn [step]; now rewrite Hopen|]. split; [exact Hl | exact Hm].
Qed.

Lemma connection_is_acquired_once_witness :
  transaction TestSQLHandle_init
  = (Returned {| level := 0 |},
     {| conn := []; conn_awaited := true; tx_level := 1 |}) /\
  open_scope (run {| conn := []; conn_awaited := true; tx_level := 1 |}
                [Exit {| level := 0 |} NoException])
  = (Raised RuntimeError,
     {| conn := ["COMMIT;"]; conn_awaited := true; tx_level := 1 |}).
Proof.
  split; [reflexivity|].
  destruct (connection_is_acquired_once TestSQLHandle_init
              [Exit {| level := 0 |} NoException]) as [_ Honce].
  destruct (Honce _ _ eq_refl) as (_ & Hopen & _).
  exact Hopen.
Defined.

(** ** More on table references *)

Lemma string_app_assoc (s1 s2 s3 : string) :
  (s1 +:+ s2) +:+ s3 = s1 +:+ (s2 +:+ s3).
Proof.
  induction s1 as [|c s1 IH]; [reflexivity|].
  rewrite !append_String. now rewrite IH.
Qed.

Section MoreReferences.
Import Ref.

(** X20. On a reference whose name [alias] still is the method of the
    class, [alias] adds one object to the store and touches no other:
    every reference that was there is the same object as before, and
    every column reference renders as before, those of the original
    included; a column reference made on the copy renders like the same
    column of the original, so the requested alias shows in no column
    either.  On a reference that [alias] returned, the call raises
    [TypeError] and the store is not touched at all. *)
Theorem alias_touches_nothing_else (h : store) (self : nat)
    (t : TableReference) (a : string) :
  h !! self = Some t ->
  (alias_attr t = None ->
   exists alias_ref h',
     alias self a h = Some (Returned (alias_ref, h')) /\
     length h' = S (length h) /\
     (forall ref, ref < length h -> h' !! ref = h !! ref) /\
     (forall c, table_reference c < length h ->
                column__str__ c h' = column__str__ c h) /\
     (forall name,
        column__str__ {| table_reference := alias_ref; column_name := name |} h'
        = column__str__ {| table_reference := self; column_name := name |} h)) /\
  (alias_attr t <> None -> alias self a h = Some (Raised TypeError)).
Proof.
  intros Ht. split.
  - intros Hattr. eexists _, _. split.
    { rewrite (alias_spec _ _ _ a Ht), Hattr. reflexivity. }
    split; [rewrite length_app; cbn; lia|].
    assert (Hframe : forall (x : TableReference) ref,
              ref < length h -> (h ++ [x]) !! ref = h !! ref).
    { intros x ref Hlt. now apply lookup_app_l. }
    split; [intros ref; apply Hframe|]. split.
    + intros c Hc. unfold column__str__, str. now rewrite Hframe.
    + intros name. unfold column__str__, str. cbn [table_reference column_name].
      rewrite list_lookup_middle by reflexivity. now rewrite Ht.
  - intros Hattr. rewrite (alias_spec _ _ _ a Ht).
    destruct (alias_attr t); [reflexivity | congruence].
Qed.

(** X21. The constructor puts the new reference at a fresh address and
    leaves the others alone.  It renders as the quoted schema and table
    joined by a dot, followed by [AS] and the quoted alias when an alias
    that is not the empty string was given; with no alias or the empty
    string nothing follows. *)
Theorem init_makes_a_fresh_reference (schema name : string)
    (a : option string) (h : store) :
  let ref := (__init__ schema name a h).1 in
  let h' := (__init__ schema name a h).2 in
  h !! ref = None /\
  (forall p, p < length h -> h' !! p = h !! p) /\
  str ref h'
  = Some match a with
         | Some (String c rest) =>
             _q schema +:+ "." +:+ _q name +:+ " AS " +:+ _q (String c rest)
         | _ => _q schema +:+ "." +:+ _q name
         end.
Proof.
  cbn [__init__ fst snd]. split; [|split].
  - apply lookup_ge_None. lia.
  - intros p Hp. now apply lookup_app_l.
  - unfold str. rewrite list_lookup_middle by reflexivity. cbn [fmap option_fmap option_map].
    unfold __str__. cbn [table_alias table_schema table_name].
    destruct a as [[|c rest]|]; cbn [truthy default]; try reflexivity.
    now rewrite !string_app_assoc.
Qed.

End MoreReferences.

Lemma alias_touches_nothing_else_witness :
  (Ref.__init__ "information_schema" "schemata" (Some "s"%string) []).2 !! 0
  = Some {| Ref.table_schema := "information_schema";
            Ref.table_name := "schemata"; Ref.table_alias := Some "s"%string;
            Ref.columns := []; Ref.alias_attr := None |} /\
  exists alias_ref h',
    Ref.alias 0 "t"
      (Ref.__init__ "information_schema" "schemata" (Some "s"%string) []).2
    = Some (Returned (alias_ref, h')) /\
    Ref.column__str__
      {| Ref.table_reference := alias_ref; Ref.column_name := "schema_name" |} h'
    = Some (_q "information_schema" +:+ "." +:+ _q "schemata" +:+ " AS "
            +:+ _q "s" +:+ "." +:+ _q "schema_name").
Proof.
  split; [reflexivity|].
  destruct (alias_touches_nothing_else
              (Ref.__init__ "information_schema" "schemata" (Some "s"%string) []).2
              0 _ "t" eq_refl) as [Hcopy _].
  destruct (Hcopy eq_refl) as (alias_ref & h' & Halias & _ & _ & _ & Hcol).
  exists alias_ref, h'. split; [exact Halias|].
  rewrite Hcol. reflexivity.
Defined.

(** ** Rendered lists can be read back *)

Lemma string_app_nil_r (s : string) : s +:+ EmptyString = s.
Proof.
  induction s as [|c s IH]; [reflexivity|]. now rewrite append_String, IH.
Qed.

Lemma read_body_escaped (name rest : string) :
  (forall c r, rest = String c r -> c <> dq) ->
  read_body (escaped name +:+ String dq rest) = Some (name, rest).
Proof.
  intros Hrest. induction name as [|c name IH].
  - cbn [replace_char]. change (EmptyString +:+ String dq rest) with (String dq rest).
    cbn [read_body]. rewrite Ascii.eqb_refl.
    destruct rest as [|c' r]; [reflexivity|].
    destruct (Ascii.eqb_spec c' dq) as [E|_]; [|reflexivity].
    now destruct (Hrest c' r eq_refl).
  - cbn [replace_char]. destruct (Ascii.eqb c dq) eqn:E.
    + apply Ascii.eqb_eq in E. subst c.
      rewrite !append_String.
      change (EmptyString +:+ escaped name) with (escaped name).
      cbn [read_body]. rewrite Ascii.eqb_refl, IH. reflexivity.
    + rewrite append_String. cbn [read_body]. now rewrite E, IH.
Qed.

Lemma read_quoted_q (name rest : string) :
  (forall c r, rest = String c r -> c <> dq) ->
  read_quoted (_q name +:+ rest) = Some (name, rest).
Proof.
  intros Hrest. unfold _q. rewrite append_String. cbn [read_quoted].
  rewrite Ascii.eqb_refl, string_app_assoc.
  change (String dq EmptyString +:+ rest) with (String dq rest).
  now apply read_body_escaped.
Qed.

Lemma read_list_rendered (names : list string) (fuel : nat) :
  names <> [] ->
  length names <= fuel ->
  read_list fuel (_render_list (map _q names)) = Some names.
Proof.
  revert fuel. induction names as [|name names IH]; intros fuel Hne Hfuel;
    [congruence|].
  destruct fuel as [|fuel]; [cbn in Hfuel; lia|].
  destruct names as [|name' names].
  - cbn [map _render_list join String.concat read_list].
    rewrite <- (string_app_nil_r (_q name)) at 1.
    rewrite read_quoted_q by discriminate. reflexivity.
  - change (_render_list (map _q (name :: name' :: names)))
      with (_q name +:+ ", " +:+ _render_list (map _q (name' :: names))).
    cbn [read_list]. rewrite read_quoted_q by (intros c r [= <- _]; discriminate).
    change (", " +:+ ?x) with (String "," (String " " x)).
    cbn [Ascii.eqb Bool.eqb andb]. rewrite IH; [reflexivity | discriminate|].
    cbn [length] in *. lia.
Qed.

Lemma rendered_length (names : list string) :
  length names <= String.length (_render_list (map _q names)).
Proof.
  induction names as [|name names IH]; [cbn; lia|].
  destruct names as [|name' names].
  - cbn. lia.
  - change (_render_list (map _q (name :: name' :: names)))
      with (_q name +:+ ", " +:+ _render_list (map _q (name' :: names))).
    rewrite !string_length_app. cbn [length] in *. cbn [String.length]. lia.
Qed.

(** X22. A rendered list of quoted identifiers can be read back: reading
    [_render_selection_set cols] gives the column names of [cols], in
    order, whatever characters the names hold (quotes, commas, blanks).
    So two column lists with the same rendered text have the same
    names. *)
Theorem selection_set_reads_back (cols cols' : list ColumnMetadata) :
  read_identifier_list (_render_selection_set cols) = Some (column_name <$> cols) /\
  (_render_selection_set cols = _render_selection_set cols' ->
   column_name <$> cols = column_name <$> cols').
Proof.
  assert (Hread : forall cs,
            read_identifier_list (_render_selection_set cs)
            = Some (column_name <$> cs)).
  { intros cs. unfold _render_selection_set.
    replace (map (fun col => _q (column_name col)) cs)
      with (map _q (column_name <$> cs)) by (now rewrite map_map).
    destruct cs as [|c cs]; [reflexivity|].
    unfold read_identifier_list.
    destruct (_render_list (map _q (column_name <$> c :: cs))) eqn:E.
    - pose proof (rendered_length (column_name <$> c :: cs)) as Hlen.
      rewrite E in Hlen. cbn in Hlen. lia.
    - rewrite <- E. apply read_list_rendered; [discriminate|].
      apply rendered_length. }
  split; [apply Hread|].
  intros E. pose proof (Hread cols) as H1. rewrite E, Hread in H1. congruence.
Qed.

Example read_back_awkward_names :
  read_identifier_list
    (_render_list (map _q ["a" +:+ String dq ", " +:+ String dq "b"; "c, d"]%string))
  = Some ["a" +:+ String dq ", " +:+ String dq "b"; "c, d"]%string.
Proof. reflexivity. Qed.

(** ** Empty batches *)

Section EmptyBatches.
Context {TRecord : Type} `{NamedTuple TRecord} `{PySetOrder}.
Implicit Types (self : TableGateway TRecord) (h : SQLHandle).

Lemma map_raising_no_records (cols : list ColumnMetadata) :
  map_raising
    (fun col => map_raising (fun rec : TRecord => getattr rec (column_name col)) [])
    cols
  = Returned ((fun _ => []) <$> cols).
Proof.
  set (f := fun col : ColumnMetadata =>
              map_raising (fun rec : TRecord => getattr rec (column_name col)) []).
  assert (Hf : forall col, f col = Returned []) by reflexivity.
  clearbody f. induction cols as [|c cols IH]; [reflexivity|].
  cbn [map_raising]. now rewrite Hf, IH.
Qed.

(** X23. An empty batch is not refused.  With no key and no record the
    statement is dispatched all the same: [get_by], [find_by], [insert]
    and [save] give it no argument array at all, [delete] one empty array
    for each key column; the lookups still take in the rows the handle
    answers with and return the empty list. *)
Theorem empty_batches_are_dispatched self h by_ (rows : list tuple) :
  (exists sql, issued (get_by self h by_ []).2
               = issued h ++ [{| call_sql := sql; call_args := [] |}]) /\
  (exists sql, issued (find_by self h by_ []).2
               = issued h ++ [{| call_sql := sql; call_args := [] |}]) /\
  (exists sql, insert self h [] = (Returned tt, record_call h sql [])) /\
  (forall pk, primary_key (meta self) = Some pk -> pk <> ∅ ->
     (exists sql, save self h [] = (Returned tt, record_call h sql [])) /\
     (exists sql,
        delete self h []
        = (Returned tt,
           record_call h sql
             ((fun _ => []) <$> dict_keys (dict_of_columns
                                  (fun c => bool_decide (field_name c ∈ pk))
                                  (columns (meta self))))))) /\
  ((forall sql args, respond h sql args = rows) ->
   Forall (row_ok self (matches_of self by_)) rows ->
   (get_by self h by_ []).1 = Returned [] /\
   (find_by self h by_ []).1 = Returned []).
Proof.
  split; [apply (get_by_dispatch self h by_ [])|].
  split; [apply (find_by_dispatch self h by_ [])|].
  split; [apply (insert_dispatch self h [])|].
  split.
  - intros pk Hpk Hne. split; [apply (save_dispatch self h [] pk Hpk Hne)|].
    unfold delete. rewrite Hpk. destruct (decide (pk = ∅)); [congruence|].
    cbv zeta. rewrite map_raising_no_records. eexists. reflexivity.
  - intros Hrows Hok. split.
    + now rewrite (get_by_result self h by_ [] rows).
    + now rewrite (find_by_result self h by_ [] rows).
Qed.

End EmptyBatches.

Lemma empty_batches_are_dispatched_witness :
  primary_key (meta Items.Table) = Some {["id"%string]} /\
  ({["id"%string]} : gset string) <> ∅ /\
  (exists sql, delete Items.Table (canned item_rows) []
               = (Returned tt, record_call (canned item_rows) sql [[]])) /\
  (get_by Items.Table (canned item_rows) ["id"%string] []).1 = Returned [].
Proof.
  split; [reflexivity|]. split; [apply non_empty_singleton_L|].
  destruct (@empty_batches_are_dispatched _ _ insertion_order Items.Table
              (canned item_rows) ["id"%string] item_rows)
    as (_ & _ & _ & Hpk & Hrows).
  split.
  - destruct (Hpk {["id"%string]} eq_refl (non_empty_singleton_L _))
      as [_ [sql Hdel]].
    exists sql. rewrite Hdel. vm_compute. reflexivity.
  - apply Hrows; [reflexivity|].
    repeat constructor; eexists; vm_compute; reflexivity.
Defined.
